(** * Minesweeper: a shallow embedding of [minesweeper.py] and its properties

    The Python module has three classes: [Cell], [Grid] and [Minesweeper].
    Python integers are unbounded, so they are modelled as [Z]; tuples
    [(row, col)] are pairs [Z * Z]; the cell matrix [List[List[Cell]]] is a
    [list (list Cell)] read and written by index.  Exceptions are values of
    an error monad, the module-level random generator is an explicit
    parameter, and the console is an explicit pair of input and output
    streams. *)

From stdpp Require Import base numbers list gmap sets strings pretty.

Local Open Scope Z_scope.

(** ** Exceptions *)

(** The exceptions that the modelled code can let escape: [ValueError] from
    [random.sample], [IndexError] from list subscription and [EOFError] from
    [input] on an exhausted input stream. *)
Inductive exn : Type :=
  | ValueError
  | IndexError
  | EOFError.

Inductive result (A : Type) : Type :=
  | Ok (a : A)
  | Raise (e : exn).

Arguments Ok {A} a.
Arguments Raise {A} e.

#[global] Instance result_ret : MRet result := λ A a, Ok a.

#[global] Instance result_bind : MBind result := λ A B f m,
  match m with
  | Ok a => f a
  | Raise e => Raise e
  end.

(** A Python [for x in l:] loop whose body updates a loop state and may
    raise. *)
Fixpoint for_each {S A : Type} (body : S → A → result S) (s : S)
    (l : list A) : result S :=
  match l with
  | [] => Ok s
  | x :: l' => s' ← body s x; for_each body s' l'
  end.

(** ** Python built-ins used by the module *)

(** [range(lo, hi)]: empty when [hi <= lo]. *)
Definition range (lo hi : Z) : list Z := seqZ lo (hi - lo).

(** List subscription [l[i]]: a negative index counts from the end, and an
    index outside [-len, len) raises [IndexError]. *)
Definition wrap_index (len : nat) (i : Z) : Z :=
  if bool_decide (i < 0) then i + Z.of_nat len else i.

Definition getitem {A : Type} (l : list A) (i : Z) : result A :=
  let k := wrap_index (length l) i in
  if bool_decide (k < 0) then Raise IndexError
  else match l !! Z.to_nat k with
       | Some x => Ok x
       | None => Raise IndexError
       end.

(** In-place update of the object stored at [l[i]].  The rows and the cells
    of a grid are created fresh by a nested comprehension, so no two
    positions alias and the update is a functional replacement. *)
Definition alter_item {A : Type} (f : A → result A) (l : list A) (i : Z)
    : result (list A) :=
  x ← getitem l i;
  y ← f x;
  Ok (<[Z.to_nat (wrap_index (length l) i) := y]> l).

(** [random.sample(population, k)], following CPython's pool algorithm:
    [ValueError] unless [0 <= k <= n]; then for [i] in [range(k)] the draw
    [j = randbelow(n - i)] selects [pool[j]] and the vacancy is filled with
    [pool[n - i - 1]].  The generator is the parameter [rand]: its [i]-th raw
    draw is reduced modulo the bound, which is what [randbelow] guarantees.
    Every selection of distinct items is the outcome for some generator
    ([sample_complete]), as with CPython's other branch for large
    populations, which redraws an index until it is a fresh one. *)
Section Sample.
Context {A : Type} (rand : nat → nat).

Definition item_at (l : list A) (i : nat) : result A :=
  match l !! i with
  | Some x => Ok x
  | None => Raise IndexError
  end.

Fixpoint sample_loop (n : nat) (pool : list A) (i steps : nat)
    : result (list A) :=
  match steps with
  | O => Ok []
  | S steps' =>
      let j := (rand i `mod` (n - i))%nat in
      x ← item_at pool j;
      y ← item_at pool (n - i - 1)%nat;
      rest ← sample_loop n (<[j := y]> pool) (S i) steps';
      Ok (x :: rest)
  end.

Definition sample (population : list A) (k : Z) : result (list A) :=
  let n := length population in
  if bool_decide (0 ≤ k ≤ Z.of_nat n)
  then sample_loop n population 0 (Z.to_nat k)
  else Raise ValueError.
End Sample.

(** ** class Cell *)

Record Cell : Type := mkCell {
  has_mine : bool;
  adjacent_mines_count : Z;
  is_open : bool
}.

#[global] Instance Cell_eq_dec : EqDecision Cell.
Proof. solve_decision. Defined.

Definition Cell_open (c : Cell) : Cell :=
  {| has_mine := has_mine c;
     adjacent_mines_count := adjacent_mines_count c;
     is_open := true |}.

Definition Cell_unopened_non_mine (c : Cell) : bool :=
  bool_decide (is_open c = false) && bool_decide (has_mine c = false).

(** [Cell.__str__] *)
Definition Cell_str (c : Cell) : string :=
  if is_open c then
    if bool_decide (adjacent_mines_count c ≠ 0)
    then pretty (adjacent_mines_count c)
    else "0"
  else " ".

(** The two attribute assignments made during construction. *)
Definition set_has_mine (b : bool) (c : Cell) : Cell :=
  {| has_mine := b;
     adjacent_mines_count := adjacent_mines_count c;
     is_open := is_open c |}.

Definition set_adjacent_mines_count (n : Z) (c : Cell) : Cell :=
  {| has_mine := has_mine c;
     adjacent_mines_count := n;
     is_open := is_open c |}.

(** ** class Grid *)

Record Grid : Type := mkGrid {
  width : Z;
  height : Z;
  cells : list (list Cell);
  mine_count : Z
}.

(** [self.cells[r][c]] *)
Definition cell_ref (cs : list (list Cell)) (r c : Z) : result Cell :=
  line ← getitem cs r; getitem line c.

(** [self.cells[r][c].<attribute> = ...] and [self.cells[r][c].open()] *)
Definition alter_cell (f : Cell → Cell) (cs : list (list Cell)) (r c : Z)
    : result (list (list Cell)) :=
  alter_item (λ line, alter_item (λ cell, Ok (f cell)) line c) cs r.

Fixpoint row_has_unopened_non_mine (line : list Cell) : bool :=
  match line with
  | [] => false
  | cell :: rest =>
      if Cell_unopened_non_mine cell then true
      else row_has_unopened_non_mine rest
  end.

Fixpoint cells_have_unopened_non_mine (cs : list (list Cell)) : bool :=
  match cs with
  | [] => false
  | line :: rest =>
      if row_has_unopened_non_mine line then true
      else cells_have_unopened_non_mine rest
  end.

Definition has_unopened_non_mines (g : Grid) : bool :=
  cells_have_unopened_non_mine (cells g).

Definition _create_empty_cells (w h : Z) : list (list Cell) :=
  (λ _, (λ _, mkCell false 0 false) <$> range 0 w) <$> range 0 h.

Definition _generate_grid_coordinate_positions (w h : Z) : list (Z * Z) :=
  r ← range 0 h; c ← range 0 w; [(r, c)].

Definition _generate_mine_positions (rand : nat → nat)
    (coordinate_positions : list (Z * Z)) (count : Z)
    : result (list (Z * Z)) :=
  sample rand coordinate_positions count.

Definition _identify_non_mine_positions
    (coordinate_positions mine_positions : list (Z * Z)) : gset (Z * Z) :=
  list_to_set coordinate_positions ∖ list_to_set mine_positions.

Definition _place_mines (cs : list (list Cell))
    (mine_positions : list (Z * Z)) : result (list (list Cell)) :=
  for_each (λ cs' '(row_index, column_index),
              alter_cell (set_has_mine true) cs' row_index column_index)
           cs mine_positions.

Definition _is_valid_position (w h : Z) (row_index column_index : Z) : bool :=
  bool_decide (0 ≤ row_index < h) && bool_decide (0 ≤ column_index < w).

(** The two nested loops of [_set_adjacent_mine_count] around one position;
    [and] does not evaluate the subscription at an invalid position. *)
Definition count_around (w h : Z) (cs : list (list Cell))
    (empty_row_index empty_column_index : Z) : result Z :=
  for_each (λ count row_index,
    for_each (λ count column_index,
      if _is_valid_position w h row_index column_index then
        cell ← cell_ref cs row_index column_index;
        Ok (if has_mine cell then count + 1 else count)
      else Ok count)
      count (range (empty_column_index - 1) (empty_column_index + 2)))
    0 (range (empty_row_index - 1) (empty_row_index + 2)).

(** The iteration order of the Python set is the order of the list
    [non_mine_positions]. *)
Definition _set_adjacent_mine_count (w h : Z) (cs : list (list Cell))
    (non_mine_positions : list (Z * Z)) : result (list (list Cell)) :=
  for_each (λ cs' '(empty_row_index, empty_column_index),
    count ← count_around w h cs' empty_row_index empty_column_index;
    alter_cell (set_adjacent_mines_count count) cs'
               empty_row_index empty_column_index)
    cs non_mine_positions.

Definition _set_cell_mines_and_adjacent_counts (rand : nat → nat)
    (w h count : Z) (cs : list (list Cell)) : result (list (list Cell)) :=
  let coordinate_positions := _generate_grid_coordinate_positions w h in
  mine_positions ← _generate_mine_positions rand coordinate_positions count;
  cs1 ← _place_mines cs mine_positions;
  let non_mine_positions :=
    _identify_non_mine_positions coordinate_positions mine_positions in
  _set_adjacent_mine_count w h cs1 (elements non_mine_positions).

(** [Grid.__init__] *)
Definition Grid_init (rand : nat → nat) (w h : Z) : result Grid :=
  let cs := _create_empty_cells w h in
  let count := (w * h) `div` 4 in
  cs' ← _set_cell_mines_and_adjacent_counts rand w h count cs;
  Ok (mkGrid w h cs' count).

Definition is_cell_opened (g : Grid) (row_index column_index : Z)
    : result bool :=
  cell ← cell_ref (cells g) row_index column_index; Ok (is_open cell).

Record Coordinate : Type := mkCoordinate { row : Z; column : Z }.

Definition has_mine_at (g : Grid) (coordinate : Coordinate) : result bool :=
  cell ← cell_ref (cells g) (row coordinate) (column coordinate);
  Ok (has_mine cell).

(** [Grid.print] writes one list of display tokens per row. *)
Inductive output : Type :=
  | PrintLine (line : string)
  | PrintRow (visible_row : list string)
  | Prompt (text : string).

(** The console: what [input] will read next and what has been written.
    An entry [Some z] of [stdin] is a line that [int] parses to [z]; an entry
    [None] is a line on which [int] raises [ValueError]. *)
Record console : Type := mkConsole {
  stdin : list (option Z);
  stdout : list output
}.

Definition emit (o : output) (k : console) : console :=
  mkConsole (stdin k) (stdout k ++ [o]).

Definition Grid_print (g : Grid) (k : console) : console :=
  foldl (λ k' line, emit (PrintRow (Cell_str <$> line)) k') k (cells g).

(** ** class Minesweeper *)

Record Minesweeper : Type := mkMinesweeper { grid : Grid }.

Definition Minesweeper_init (rand : nat → nat) (w h : Z)
    : result Minesweeper :=
  g ← Grid_init rand w h; Ok (mkMinesweeper g).

(** The [while True] loop of [_get_valid_coordinate]: every iteration reads
    one line, so the recursion is on the input stream. *)
Fixpoint _get_valid_coordinate_loop (prompt : string) (max_index : Z)
    (inp : list (option Z)) (out : list output) : result (Z * console) :=
  match inp with
  | [] => Raise EOFError
  | entry :: inp' =>
      let out1 := out ++ [Prompt prompt] in
      match entry with
      | None =>
          _get_valid_coordinate_loop prompt max_index inp'
            (out1 ++ [PrintLine "Invalid input. Please enter a valid number."])
      | Some coordinate =>
          if bool_decide (0 ≤ coordinate ≤ max_index)
          then Ok (coordinate, mkConsole inp' out1)
          else _get_valid_coordinate_loop prompt max_index inp'
                 (out1 ++ [PrintLine ("Invalid input. Please enter a number between 0 and "
                                  +:+ pretty max_index +:+ ".")])
      end
  end.

Definition _get_valid_coordinate (plane : string) (max_index : Z)
    (k : console) : result (Z * console) :=
  let prompt := "Enter zero-index " +:+ plane +:+ "-coordinate between 0 and "
                +:+ pretty max_index +:+ ": " in
  _get_valid_coordinate_loop prompt max_index (stdin k) (stdout k).

(** The [while True] loop of [_get_user_guess], bounded by [fuel]
    iterations.  Every iteration reads at least two lines, so more fuel than
    there are lines is never used up ([_get_user_guess_loop_fuel]). *)
Fixpoint _get_user_guess_loop (fuel : nat) (game : Minesweeper) (k : console)
    : result (Coordinate * console) :=
  match fuel with
  | O => Raise EOFError
  | S fuel' =>
      let k0 := emit (PrintLine ("Try to guess a non-mine. I'll ask your x and y coordinates. 0, 0 at top left. "
                             +:+ "Positive #s to right and down.")) k in
      let max_row_index := width (grid game) - 1 in
      let max_col_index := height (grid game) - 1 in
      '(column_index, k1) ← _get_valid_coordinate "x" max_row_index k0;
      '(row_index, k2) ← _get_valid_coordinate "y" max_col_index k1;
      opened ← is_cell_opened (grid game) row_index column_index;
      if opened : bool then
        _get_user_guess_loop fuel' game
          (emit (PrintLine "Invalid input. The cell is already opened. Please choose another cell.") k2)
      else Ok (mkCoordinate row_index column_index, k2)
  end.

Definition _get_user_guess (game : Minesweeper) (k : console)
    : result (Coordinate * console) :=
  _get_user_guess_loop (S (length (stdin k))) game k.

Definition _has_guessed_mine (game : Minesweeper)
    (user_coordinate_guess : Coordinate) (k : console)
    : result (bool * console) :=
  hit ← has_mine_at (grid game) user_coordinate_guess;
  if hit : bool then Ok (true, emit (PrintLine "You guessed a mine") k)
  else Ok (false, k).

(** The states of a game: [Playing] while the [while] loop of [play] runs,
    [Lost] after its [break], [Won] after its [else] clause. *)
Inductive status : Type :=
  | Playing
  | Won
  | Lost.

#[global] Instance status_eq_dec : EqDecision status.
Proof. solve_decision. Defined.

(** [self.grid.cells[row][column].open()] *)
Definition open_cell (game : Minesweeper) (coordinate : Coordinate)
    : result Minesweeper :=
  cs ← alter_cell Cell_open (cells (grid game))
                  (row coordinate) (column coordinate);
  Ok (mkMinesweeper
        (mkGrid (width (grid game)) (height (grid game)) cs
                (mine_count (grid game)))).

(** One evaluation of the loop condition of [play] and, when it holds, one
    run of the loop body. *)
Definition turn (game : Minesweeper) (k : console)
    : result (status * Minesweeper * console) :=
  if has_unopened_non_mines (grid game) then
    let k0 := Grid_print (grid game) k in
    '(user_coordinate_guess, k1) ← _get_user_guess game k0;
    '(hit, k2) ← _has_guessed_mine game user_coordinate_guess k1;
    if hit : bool then Ok (Lost, game, emit (PrintLine "You lose") k2)
    else
      game' ← open_cell game user_coordinate_guess;
      Ok (Playing, game', k2)
  else Ok (Won, game, emit (PrintLine "Hooray!! You won") k).

(** At most [fuel] turns of [play]; the status is [Playing] when the loop
    has not ended within them. *)
Fixpoint play_loop (fuel : nat) (game : Minesweeper) (k : console)
    : result (status * Minesweeper * console) :=
  match fuel with
  | O => Ok (Playing, game, k)
  | S fuel' =>
      '(st, game', k') ← turn game k;
      match st with
      | Playing => play_loop fuel' game' k'
      | _ => Ok (st, game', k')
      end
  end.

(** [Minesweeper.play]: every turn that goes on reads at least two lines, so
    one turn more than there are lines ends the loop ([play_ends]). *)
Definition play (game : Minesweeper) (k : console)
    : result (status * Minesweeper * console) :=
  play_loop (S (length (stdin k))) game k.

(** ** play.py *)

(** [input(prompt)] writes the prompt and reads one line; [int] of a line
    that is not a number raises [ValueError]. *)
Definition input_line (prompt : string) (k : console)
    : result (option Z * console) :=
  match stdin k with
  | [] => Raise EOFError
  | entry :: rest => Ok (entry, mkConsole rest (stdout k ++ [Prompt prompt]))
  end.

Definition int_of_line (entry : option Z) : result Z :=
  match entry with
  | Some z => Ok z
  | None => Raise ValueError
  end.

(** [main]: both lines are read before either is converted. *)
Definition main (rand : nat → nat) (k : console)
    : result (status * Minesweeper * console) :=
  '(width_line, k1) ← input_line "Enter integer value of width of cells: " k;
  '(height_line, k2) ← input_line "Enter integer value of height of cells: " k1;
  w ← int_of_line width_line;
  h ← int_of_line height_line;
  game ← Minesweeper_init rand w h;
  play game k2.

(** ** A sample game *)

(** A generator whose every raw draw is 5, the 2 x 2 grid that
    [Grid(2, 2)] builds from it (the mine is at row 0, column 1), and the
    game on that grid. *)
Definition demo_rand : nat → nat := λ _, 5%nat.

Definition demo_grid : Grid :=
  mkGrid 2 2 [[mkCell false 1 false; mkCell true 0 false];
              [mkCell false 1 false; mkCell false 1 false]] 1.

Definition demo_game : Minesweeper := mkMinesweeper demo_grid.

(** ** Specification-level notions *)

(** A matrix of [h] rows of [w] cells each (a non-positive bound counts as
    zero, as [range] does). *)
Definition shape (w h : Z) (cs : list (list Cell)) : Prop :=
  length cs = Z.to_nat h ∧ Forall (λ line, length line = Z.to_nat w) cs.

(** The cell at a position, without wrap-around: defined inside the matrix
    only. *)
Definition at_pos (cs : list (list Cell)) (p : Z * Z) : option Cell :=
  if bool_decide (0 ≤ p.1 ∧ 0 ≤ p.2)
  then line ← cs !! Z.to_nat p.1; line !! Z.to_nat p.2
  else None.

Definition mine_at (cs : list (list Cell)) (p : Z * Z) : bool :=
  match at_pos cs p with
  | Some cell => has_mine cell
  | None => false
  end.

Definition in_bounds (w h : Z) (p : Z * Z) : Prop :=
  0 ≤ p.1 < h ∧ 0 ≤ p.2 < w.

#[global] Instance in_bounds_dec w h p : Decision (in_bounds w h p).
Proof. unfold in_bounds. apply _. Defined.

(** The eight neighbour offsets [{-1,0,1} x {-1,0,1}] without [(0,0)]. *)
Definition neighbour_offsets : list (Z * Z) :=
  [(-1, -1); (-1, 0); (-1, 1); (0, -1); (0, 1); (1, -1); (1, 0); (1, 1)].

(** The number of mine cells among the neighbours of [p] that lie inside
    [[0,h) x [0,w)]. *)
Definition neighbour_mines (w h : Z) (cs : list (list Cell)) (p : Z * Z) : Z :=
  Z.of_nat (length (filter
    (λ d : Z * Z, in_bounds w h (p.1 + d.1, p.2 + d.2)
                  ∧ mine_at cs (p.1 + d.1, p.2 + d.2) = true)
    neighbour_offsets)).

(** The number of cells of the matrix that carry a mine. *)
Definition count_mines (cs : list (list Cell)) : nat :=
  length (filter (λ cell, has_mine cell = true) (concat cs)).

(** No mine cell is open. *)
Definition mines_closed (cs : list (list Cell)) : Prop :=
  ∀ line cell, line ∈ cs → cell ∈ line →
               has_mine cell = true → is_open cell = false.

(** Every mine cell has the count [0]. *)
Definition mines_count_zero (cs : list (list Cell)) : Prop :=
  ∀ line cell, line ∈ cs → cell ∈ line →
               has_mine cell = true → adjacent_mines_count cell = 0.

(** The number of open cells. *)
Definition count_open (cs : list (list Cell)) : nat :=
  length (filter (λ cell, is_open cell = true) (concat cs)).

(** Every cell is closed. *)
Definition all_closed (cs : list (list Cell)) : Prop :=
  ∀ line cell, line ∈ cs → cell ∈ line → is_open cell = false.

(** A line that [_get_valid_coordinate] accepts: a number in
    [[0, max_index]]. *)
Definition accepted (max_index : Z) (entry : option Z) : Prop :=
  ∃ z, entry = Some z ∧ 0 ≤ z ≤ max_index.

#[global] Instance accepted_dec max_index entry :
  Decision (accepted max_index entry).
Proof.
  destruct entry as [z|].
  - destruct (decide (0 ≤ z ≤ max_index)) as [Hz|Hz].
    + left. by exists z.
    + right. intros (z' & [= <-] & Hz'). done.
  - right. by intros (z & Hz & _).
Defined.

(** What [_get_valid_coordinate] writes for the lines it rejects, and the
    prompt of the line it accepts. *)
Definition coordinate_prompt (plane : string) (max_index : Z) : string :=
  "Enter zero-index " +:+ plane +:+ "-coordinate between 0 and "
  +:+ pretty max_index +:+ ": ".

Definition rejection (max_index : Z) (entry : option Z) : output :=
  match entry with
  | None => PrintLine "Invalid input. Please enter a valid number."
  | Some _ =>
      PrintLine ("Invalid input. Please enter a number between 0 and "
                 +:+ pretty max_index +:+ ".")
  end.

(** The display tokens: a blank and the digits up to eight. *)
Definition display_tokens : list string :=
  [" "; "0"; "1"; "2"; "3"; "4"; "5"; "6"; "7"; "8"].

(** What never changes after construction: the dimensions, the number of
    mines, and for every cell its mine flag and its count. *)
Definition topology (g : Grid)
    : (Z * Z * Z * list (list (bool * Z)))%type :=
  (width g, height g, mine_count g,
   fmap (M := list) (λ cell, (has_mine cell, adjacent_mines_count cell))
     <$> cells g).

(** ** The error monad *)

Lemma bind_Ok {A B : Type} (m : result A) (f : A → result B) (b : B) :
  m ≫= f = Ok b ↔ ∃ a, m = Ok a ∧ f a = Ok b.
Proof.
  destruct m as [a|e]; simpl; split.
  - intros H. by exists a.
  - by intros (a' & [= <-] & H).
  - done.
  - by intros (a' & ? & _).
Qed.

Lemma bind_Raise {A B : Type} (m : result A) (f : A → result B) (e : exn) :
  m ≫= f = Raise e ↔ m = Raise e ∨ ∃ a, m = Ok a ∧ f a = Raise e.
Proof.
  destruct m as [a|e']; simpl; split.
  - intros H. right. by exists a.
  - intros [?|(a' & [= <-] & H)]; done.
  - intros [= ->]. by left.
  - intros [[= ->]|(a' & ? & _)]; done.
Qed.

Ltac inv_bind H :=
  repeat match type of H with
  | _ ≫= _ = Ok _ =>
      let a := fresh "a" in
      let Ha := fresh "Ha" in
      apply bind_Ok in H as (a & Ha & H)
  end.

(** A loop whose body never raises is a left fold. *)
Lemma for_each_pure {S A : Type} (f : S → A → S) (s : S) (l : list A) :
  for_each (λ s' x, Ok (f s' x)) s l = Ok (foldl f s l).
Proof. revert s. induction l as [|x l IH]; intros s; simpl; [done|apply IH]. Qed.

Lemma for_each_ext {S A : Type} (f g : S → A → result S) (s : S) (l : list A) :
  (∀ s' x, x ∈ l → f s' x = g s' x) → for_each f s l = for_each g s l.
Proof.
  revert s. induction l as [|x l IH]; intros s Hfg; simpl; [done|].
  rewrite Hfg by left. destruct (g s x) as [s'|e]; simpl; [|done].
  apply IH. intros s'' y Hy. apply Hfg. by right.
Qed.

(** ** Subscription and in-place update *)

Lemma wrap_index_nonneg (len : nat) (i : Z) : 0 ≤ i → wrap_index len i = i.
Proof. intros Hi. unfold wrap_index. by rewrite bool_decide_eq_false_2 by lia. Qed.

Lemma wrap_index_mod (len : nat) (i : Z) :
  - Z.of_nat len ≤ i < Z.of_nat len → wrap_index len i = i `mod` Z.of_nat len.
Proof.
  intros Hi. unfold wrap_index. case_bool_decide.
  - apply Z.mod_unique with (-1); lia.
  - symmetry. apply Z.mod_small. lia.
Qed.

Lemma getitem_Ok {A : Type} (l : list A) (i : Z) (x : A) :
  getitem l i = Ok x ↔
  ∃ k : nat, Z.of_nat k = wrap_index (length l) i ∧ l !! k = Some x.
Proof.
  unfold getitem. split.
  - case_bool_decide as Hk; [done|].
    destruct (l !! _) as [y|] eqn:Hl; [|done]. intros [= ->].
    exists (Z.to_nat (wrap_index (length l) i)). split; [lia|done].
  - intros (k & Hk & Hl). rewrite <- Hk.
    rewrite bool_decide_eq_false_2 by lia. by rewrite Nat2Z.id, Hl.
Qed.

Lemma getitem_Raise {A : Type} (l : list A) (i : Z) (e : exn) :
  getitem l i = Raise e → e = IndexError.
Proof.
  unfold getitem. case_bool_decide; [congruence|].
  destruct (l !! _); congruence.
Qed.

Lemma getitem_out_of_range {A : Type} (l : list A) (i : Z) :
  Z.of_nat (length l) ≤ i ∨ i < - Z.of_nat (length l) →
  getitem l i = Raise IndexError.
Proof.
  intros Hi. unfold getitem, wrap_index. repeat case_bool_decide; try done; try lia.
  all: rewrite lookup_ge_None_2 by lia; done.
Qed.

Lemma alter_item_Ok {A : Type} (f : A → result A) (l l' : list A) (i : Z) :
  alter_item f l i = Ok l' ↔
  ∃ (k : nat) (x y : A),
    Z.of_nat k = wrap_index (length l) i ∧ l !! k = Some x ∧ f x = Ok y ∧
    l' = <[k := y]> l.
Proof.
  unfold alter_item. split.
  - intros H. inv_bind H. injection H as <-.
    apply getitem_Ok in Ha as (k & Hk & Hl).
    exists k, a, a0. rewrite <- Hk, Nat2Z.id. done.
  - intros (k & x & y & Hk & Hl & Hf & ->).
    assert (getitem l i = Ok x) as -> by (apply getitem_Ok; eauto).
    simpl. rewrite Hf. simpl. by rewrite <- Hk, Nat2Z.id.
Qed.

Lemma alter_cell_Ok (f : Cell → Cell) (cs cs' : list (list Cell)) (r c : Z) :
  alter_cell f cs r c = Ok cs' ↔
  ∃ (i j : nat) (line : list Cell) (cell : Cell),
    Z.of_nat i = wrap_index (length cs) r ∧ cs !! i = Some line ∧
    Z.of_nat j = wrap_index (length line) c ∧ line !! j = Some cell ∧
    cs' = <[i := <[j := f cell]> line]> cs.
Proof.
  unfold alter_cell. rewrite alter_item_Ok. split.
  - intros (i & line & line' & Hi & Hline & Hf & ->).
    apply alter_item_Ok in Hf as (j & cell & y & Hj & Hcell & [= <-] & ->).
    by exists i, j, line, cell.
  - intros (i & j & line & cell & Hi & Hline & Hj & Hcell & ->).
    exists i, line, (<[j := f cell]> line). repeat split; try done.
    apply alter_item_Ok. by exists j, cell, (f cell).
Qed.

Lemma cell_ref_Ok (cs : list (list Cell)) (r c : Z) (cell : Cell) :
  cell_ref cs r c = Ok cell ↔
  ∃ (i j : nat) (line : list Cell),
    Z.of_nat i = wrap_index (length cs) r ∧ cs !! i = Some line ∧
    Z.of_nat j = wrap_index (length line) c ∧ line !! j = Some cell.
Proof.
  unfold cell_ref. rewrite bind_Ok. split.
  - intros (line & Hr & Hc).
    apply getitem_Ok in Hr as (i & Hi & Hline).
    apply getitem_Ok in Hc as (j & Hj & Hcell). by exists i, j, line.
  - intros (i & j & line & Hi & Hline & Hj & Hcell).
    exists line. split; apply getitem_Ok; eauto.
Qed.

Lemma cell_ref_Raise (cs : list (list Cell)) (r c : Z) (e : exn) :
  cell_ref cs r c = Raise e → e = IndexError.
Proof.
  unfold cell_ref. intros H.
  apply bind_Raise in H as [H|(line & _ & H)]; by apply getitem_Raise in H.
Qed.

(** ** Matrices of cells *)

Lemma lookup2_insert (cs : list (list Cell)) (i j i' j' : nat)
    (line : list Cell) (x : Cell) :
  cs !! i = Some line → (j < length line)%nat →
  (<[i := <[j := x]> line]> cs !! i') ≫= (.!! j')
  = if decide (i' = i ∧ j' = j) then Some x else (cs !! i') ≫= (.!! j').
Proof.
  intros Hline Hj. apply lookup_lt_Some in Hline as Hi.
  destruct (decide (i' = i)) as [->|Hne].
  - rewrite list_lookup_insert_eq by done. rewrite Hline. simpl.
    destruct (decide (j' = j)) as [->|Hne'].
    + rewrite list_lookup_insert_eq by done. by rewrite decide_True.
    + rewrite list_lookup_insert_ne by done. rewrite decide_False; [done|tauto].
  - rewrite list_lookup_insert_ne by done. rewrite decide_False; [done|tauto].
Qed.

Lemma shape_insert (w h : Z) (cs : list (list Cell)) (i j : nat)
    (line : list Cell) (x : Cell) :
  shape w h cs → cs !! i = Some line →
  shape w h (<[i := <[j := x]> line]> cs).
Proof.
  intros [Hlen Hall] Hline. split.
  - by rewrite length_insert.
  - apply Forall_insert; [done|]. rewrite length_insert.
    by apply (Forall_lookup_1 _ _ _ _ Hall Hline).
Qed.

Lemma at_pos_in_bounds (w h : Z) (cs : list (list Cell)) (p : Z * Z) :
  shape w h cs → is_Some (at_pos cs p) ↔ in_bounds w h p.
Proof.
  intros [Hlen Hall]. unfold at_pos, in_bounds. destruct p as [r c]. simpl. split.
  - intros [cell Hcell]. case_bool_decide as Hnn; [|done].
    destruct (cs !! Z.to_nat r) as [line|] eqn:Hline; [|done]. simpl in Hcell.
    apply lookup_lt_Some in Hline as Hr. apply lookup_lt_Some in Hcell as Hc.
    rewrite (Forall_lookup_1 _ _ _ _ Hall Hline) in Hc. lia.
  - intros [Hr Hc]. rewrite bool_decide_eq_true_2 by lia.
    destruct (lookup_lt_is_Some_2 cs (Z.to_nat r)) as [line Hline]; [lia|].
    rewrite Hline. simpl. apply lookup_lt_is_Some_2.
    rewrite (Forall_lookup_1 _ _ _ _ Hall Hline). lia.
Qed.

(** Inside the matrix, subscription reads the cell at the position. *)
Lemma cell_ref_in_bounds (w h : Z) (cs : list (list Cell)) (r c : Z) :
  shape w h cs → in_bounds w h (r, c) →
  ∃ cell, at_pos cs (r, c) = Some cell ∧ cell_ref cs r c = Ok cell.
Proof.
  intros Hshape Hin. destruct (proj2 (at_pos_in_bounds w h cs (r, c) Hshape) Hin)
    as [cell Hcell].
  exists cell. split; [done|]. destruct Hin as [Hr Hc]. simpl in *.
  unfold at_pos in Hcell. simpl in Hcell.
  rewrite bool_decide_eq_true_2 in Hcell by lia.
  destruct (cs !! Z.to_nat r) as [line|] eqn:Hline; [|done]. simpl in Hcell.
  apply cell_ref_Ok. exists (Z.to_nat r), (Z.to_nat c), line.
  rewrite !wrap_index_nonneg by lia. repeat split; try done; lia.
Qed.

(** Inside the matrix, an update succeeds, keeps the shape, and changes the
    cell at the position only. *)
Lemma alter_cell_in_bounds (f : Cell → Cell) (w h : Z)
    (cs : list (list Cell)) (r c : Z) :
  shape w h cs → in_bounds w h (r, c) →
  ∃ cs', alter_cell f cs r c = Ok cs' ∧ shape w h cs' ∧
    ∀ p, at_pos cs' p
         = if decide (p = (r, c)) then f <$> at_pos cs p else at_pos cs p.
Proof.
  intros Hshape Hin.
  destruct (proj2 (at_pos_in_bounds w h cs (r, c) Hshape) Hin) as [cell Hcell].
  destruct Hin as [Hr Hc]. simpl in *.
  unfold at_pos in Hcell. simpl in Hcell.
  rewrite bool_decide_eq_true_2 in Hcell by lia.
  destruct (cs !! Z.to_nat r) as [line|] eqn:Hline; [|done]. simpl in Hcell.
  exists (<[Z.to_nat r := <[Z.to_nat c := f cell]> line]> cs). split; [|split].
  - apply alter_cell_Ok. exists (Z.to_nat r), (Z.to_nat c), line, cell.
    rewrite !wrap_index_nonneg by lia. repeat split; try done; lia.
  - by apply shape_insert.
  - intros [r' c']. unfold at_pos. simpl.
    case_bool_decide as Hnn.
    + rewrite (lookup2_insert cs _ _ _ _ line) by (by eauto using lookup_lt_Some).
      destruct (decide ((r', c') = (r, c))) as [[= -> ->]|Hne].
      * rewrite decide_True by done. rewrite Hline. simpl. by rewrite Hcell.
      * rewrite decide_False; [done|]. intros [H1 H2]. apply Hne. f_equal; lia.
    + destruct (decide ((r', c') = (r, c))) as [[= -> ->]|Hne]; [lia|done].
Qed.

Lemma shape_create_empty_cells (w h : Z) : shape w h (_create_empty_cells w h).
Proof.
  unfold _create_empty_cells, range, shape. split.
  - rewrite length_fmap, length_seqZ. f_equal. lia.
  - apply Forall_fmap, Forall_forall. intros r _. simpl.
    rewrite length_fmap, length_seqZ. f_equal. lia.
Qed.

Lemma at_pos_create_empty_cells (w h : Z) (p : Z * Z) (cell : Cell) :
  at_pos (_create_empty_cells w h) p = Some cell → cell = mkCell false 0 false.
Proof.
  unfold at_pos, _create_empty_cells. case_bool_decide; [|done].
  rewrite list_lookup_fmap. destruct (range 0 h !! _); [|done]. simpl.
  rewrite list_lookup_fmap. destruct (range 0 w !! _); [|done]. simpl. congruence.
Qed.

(** ** Sampling without replacement *)

Section SampleFacts.
Context {A : Type} (rand : nat → nat).

(** Moving the last live item of the pool into the vacancy keeps, in the
    shorter live prefix, exactly the items that were not selected. *)
Lemma take_fill_vacancy (pool : list A) (m j : nat) (x y : A) :
  pool !! j = Some x → pool !! m = Some y → (j ≤ m)%nat →
  take m (<[j := y]> pool) ++ [x] ≡ₚ take (S m) pool.
Proof.
  intros Hx Hy Hjm. rewrite (take_S_r pool m y) by done.
  destruct (decide (j = m)) as [->|Hne].
  - rewrite take_insert_ge by done. by simplify_eq.
  - assert (j < m)%nat as Hlt by lia.
    rewrite take_insert_lt by done.
    assert (take m pool !! j = Some x) as Ht by (by rewrite lookup_take_lt).
    apply lookup_lt_Some in Ht as Hlen.
    rewrite insert_take_drop by done.
    rewrite <- (take_drop_middle (take m pool) j x) at 3 by done.
    rewrite <- !app_assoc. simpl.
    apply Permutation_app_head.
    rewrite <- !Permutation_middle. apply perm_swap.
Qed.

Lemma sample_loop_spec (n steps : nat) :
  ∀ (pool : list A) (i : nat),
    length pool = n → (i + steps ≤ n)%nat → NoDup (take (n - i) pool) →
    ∃ res, sample_loop rand n pool i steps = Ok res ∧
           length res = steps ∧ NoDup res ∧ res ⊆ take (n - i) pool.
Proof.
  induction steps as [|steps IH]; intros pool i Hlen Hi Hnd; simpl.
  - exists []. repeat split; [constructor|]. apply list_subseteq_nil.
  - set (m := (n - i - 1)%nat). set (j := (rand i `mod` (n - i))%nat).
    assert (n - i = S m)%nat as Hm by lia.
    assert (j < n - i)%nat as Hj by (apply Nat.mod_upper_bound; lia).
    destruct (lookup_lt_is_Some_2 pool j) as [x Hx]; [lia|].
    destruct (lookup_lt_is_Some_2 pool m) as [y Hy]; [lia|].
    unfold item_at. rewrite Hx, Hy. simpl.
    pose proof (take_fill_vacancy pool m j x y Hx Hy ltac:(lia)) as Hperm.
    rewrite Hm in Hnd. rewrite <- Hperm in Hnd.
    apply NoDup_app in Hnd as (Hnd' & Hnot & _).
    destruct (IH (<[j := y]> pool) (S i)) as (rest & Hrest & Hl & Hndr & Hsub).
    + by rewrite length_insert.
    + lia.
    + by replace (n - S i)%nat with m by lia.
    + replace (n - S i)%nat with m in Hsub by lia.
      rewrite Hrest. simpl. exists (x :: rest). repeat split.
      * simpl. by f_equal.
      * constructor; [|done]. intros Hin. apply (Hnot x); [by apply Hsub|].
        by apply list_elem_of_singleton.
      * rewrite Hm, <- Hperm. intros z Hz.
        apply elem_of_cons in Hz as [->|Hz].
        -- apply elem_of_app. right. by apply list_elem_of_singleton.
        -- apply elem_of_app. left. by apply Hsub.
Qed.

(** A sample of a duplicate-free population is duplicate-free, has the
    requested size and is drawn from the population. *)
Lemma sample_spec (population : list A) (k : Z) :
  NoDup population → 0 ≤ k ≤ Z.of_nat (length population) →
  ∃ res, sample rand population k = Ok res ∧
         Z.of_nat (length res) = k ∧ NoDup res ∧ res ⊆ population.
Proof.
  intros Hnd Hk. unfold sample. rewrite bool_decide_eq_true_2 by done.
  destruct (sample_loop_spec (length population) (Z.to_nat k) population 0)
    as (res & Hres & Hlen & Hndr & Hsub).
  - done.
  - lia.
  - by rewrite Nat.sub_0_r, firstn_all.
  - rewrite Nat.sub_0_r, firstn_all in Hsub.
    exists res. repeat split; try done. lia.
Qed.

Lemma sample_ValueError (population : list A) (k : Z) :
  ¬ (0 ≤ k ≤ Z.of_nat (length population)) →
  sample rand population k = Raise ValueError.
Proof. intros Hk. unfold sample. by rewrite bool_decide_eq_false_2. Qed.
End SampleFacts.

(** Only the draws from step [i] on matter. *)
Lemma sample_loop_ext {A : Type} (rand rand' : nat → nat) (n steps : nat) :
  ∀ (pool : list A) (i : nat),
    (∀ m, (i ≤ m)%nat → rand m = rand' m) →
    sample_loop rand n pool i steps = sample_loop rand' n pool i steps.
Proof.
  induction steps as [|steps IH]; intros pool i Hext; simpl; [done|].
  rewrite (Hext i) by done.
  destruct (item_at pool _) as [x|e]; [|done]. simpl.
  destruct (item_at pool _) as [y|e]; [|done]. simpl.
  rewrite (IH _ (S i)); [done|]. intros m Hm. apply Hext. lia.
Qed.

(** Every duplicate-free selection from the live part of the pool is the
    outcome of some sequence of draws. *)
Lemma sample_loop_complete {A : Type} (n : nat) (res : list A) :
  ∀ (pool : list A) (i : nat),
    length pool = n → (i + length res ≤ n)%nat →
    NoDup (take (n - i) pool) → NoDup res → res ⊆ take (n - i) pool →
    ∃ rand, sample_loop rand n pool i (length res) = Ok res.
Proof.
  induction res as [|x res IH]; intros pool i Hlen Hi Hnd Hres Hsub; simpl.
  - by exists (λ _, 0%nat).
  - simpl in Hi. set (m := (n - i - 1)%nat).
    assert (n - i = S m)%nat as Hm by lia.
    apply NoDup_cons in Hres as [Hx Hres].
    assert (x ∈ take (n - i) pool) as Hin by (apply Hsub; left).
    apply list_elem_of_lookup in Hin as [j Hj].
    apply lookup_take_Some in Hj as [Hj Hjlt].
    destruct (lookup_lt_is_Some_2 pool m) as [y Hy]; [lia|].
    pose proof (take_fill_vacancy pool m j x y Hj Hy ltac:(lia)) as Hperm.
    rewrite Hm in Hnd, Hsub. rewrite <- Hperm in Hnd.
    apply NoDup_app in Hnd as (Hnd' & _ & _).
    destruct (IH (<[j := y]> pool) (S i)) as [rand' Hrand'].
    + by rewrite length_insert.
    + lia.
    + by replace (n - S i)%nat with m by lia.
    + done.
    + replace (n - S i)%nat with m by lia. intros z Hz.
      assert (z ∈ take m (<[j := y]> pool) ++ [x]) as Hz'.
      { rewrite Hperm. apply Hsub. by right. }
      apply elem_of_app in Hz' as [Hz'|Hz']; [done|].
      apply list_elem_of_singleton in Hz' as ->. done.
    + exists (λ k, if decide (k = i) then j else rand' k).
      rewrite decide_True by done.
      rewrite Nat.mod_small by lia.
      unfold item_at. fold m. rewrite Hj, Hy. simpl.
      rewrite (sample_loop_ext _ rand').
      * by rewrite Hrand'.
      * intros k Hk. rewrite decide_False; [done|lia].
Qed.

(** The model of [random.sample] leaves no selection out: every
    duplicate-free list of items of a duplicate-free population is the sample
    for some generator. *)
Lemma sample_complete {A : Type} (population res : list A) :
  NoDup population → NoDup res → res ⊆ population →
  ∃ rand, sample rand population (Z.of_nat (length res)) = Ok res.
Proof.
  intros Hpop Hres Hsub.
  assert (length res ≤ length population)%nat as Hlen
    by (by apply submseteq_length, NoDup_submseteq).
  destruct (sample_loop_complete (length population) res population 0)
    as [rand Hrand]; try done.
  - by rewrite Nat.sub_0_r, firstn_all.
  - by rewrite Nat.sub_0_r, firstn_all.
  - exists rand. unfold sample. rewrite bool_decide_eq_true_2 by lia.
    by rewrite Nat2Z.id.
Qed.

(** ** Coordinate positions *)

Lemma elem_of_positions (w h : Z) (p : Z * Z) :
  p ∈ _generate_grid_coordinate_positions w h ↔ in_bounds w h p.
Proof.
  unfold _generate_grid_coordinate_positions, in_bounds, range.
  destruct p as [r c]. simpl. rewrite list_elem_of_bind. split.
  - intros (r' & Hp & Hr). apply list_elem_of_bind in Hp as (c' & Hp & Hc).
    apply list_elem_of_singleton in Hp as [= -> ->].
    apply elem_of_seqZ in Hr, Hc. lia.
  - intros [Hr Hc]. exists r. split; [|apply elem_of_seqZ; lia].
    apply list_elem_of_bind. exists c. split; [|apply elem_of_seqZ; lia].
    by apply list_elem_of_singleton.
Qed.

Lemma NoDup_positions (w h : Z) :
  NoDup (_generate_grid_coordinate_positions w h).
Proof.
  unfold _generate_grid_coordinate_positions, range. apply NoDup_bind.
  - intros r1 r2 p _ _ H1 H2.
    apply list_elem_of_bind in H1 as (c1 & H1 & _).
    apply list_elem_of_bind in H2 as (c2 & H2 & _).
    apply list_elem_of_singleton in H1, H2. congruence.
  - intros r _. apply NoDup_bind.
    + intros c1 c2 p _ _ H1 H2.
      apply list_elem_of_singleton in H1, H2. congruence.
    + intros c _. apply NoDup_singleton.
    + apply NoDup_seqZ.
  - apply NoDup_seqZ.
Qed.

Lemma length_pairs {A B : Type} (l : list A) (k : list B) :
  length (x ← l; y ← k; [(x, y)]) = (length l * length k)%nat.
Proof.
  induction l as [|x l IH]; [done|].
  rewrite bind_cons, length_app, IH. simpl. f_equal.
  clear IH. induction k as [|y k IH]; [done|].
  rewrite bind_cons. simpl. by f_equal.
Qed.

Lemma length_positions (w h : Z) :
  length (_generate_grid_coordinate_positions w h)
  = (Z.to_nat h * Z.to_nat w)%nat.
Proof.
  unfold _generate_grid_coordinate_positions, range.
  rewrite length_pairs, !length_seqZ. f_equal; f_equal; lia.
Qed.

(** ** Placing the mines *)

Lemma place_mines_spec (w h : Z) (ms : list (Z * Z)) :
  ∀ cs : list (list Cell),
    shape w h cs → (∀ p, p ∈ ms → in_bounds w h p) →
    ∃ cs', _place_mines cs ms = Ok cs' ∧ shape w h cs' ∧
      ∀ p, at_pos cs' p
           = (λ cell, if decide (p ∈ ms) then set_has_mine true cell else cell)
               <$> at_pos cs p.
Proof.
  unfold _place_mines.
  induction ms as [|[r c] ms IH]; intros cs Hshape Hin; simpl.
  - exists cs. split; [done|]. split; [done|]. intros p.
    by destruct (at_pos cs p) as [cell|].
  - destruct (alter_cell_in_bounds (set_has_mine true) w h cs r c)
      as (cs1 & -> & Hshape1 & Hat1); [done|apply Hin; by left|].
    simpl. destruct (IH cs1) as (cs' & Hcs' & Hshape' & Hat');
      [done|intros p Hp; apply Hin; by right|].
    exists cs'. split; [done|]. split; [done|]. intros p.
    rewrite Hat', Hat1.
    destruct (decide (p = (r, c))) as [->|Hne];
      (destruct (at_pos cs _) as [cell|]; [|done]); simpl.
    + rewrite (decide_True (P := (r, c) ∈ (r, c) :: ms)) by left.
      by case_decide.
    + destruct (decide (p ∈ ms)) as [Hp|Hp].
      * by rewrite decide_True by (by right).
      * rewrite decide_False; [done|]. rewrite elem_of_cons. tauto.
Qed.

(** ** Counting around a position *)

Lemma is_valid_position_spec (w h r c : Z) :
  _is_valid_position w h r c = bool_decide (in_bounds w h (r, c)).
Proof.
  unfold _is_valid_position. rewrite <- bool_decide_and.
  by apply bool_decide_ext.
Qed.

Lemma mine_at_in_bounds (w h : Z) (cs : list (list Cell)) (p : Z * Z) :
  shape w h cs → mine_at cs p = true → in_bounds w h p.
Proof.
  intros Hshape Hm. apply (at_pos_in_bounds w h cs p Hshape).
  unfold mine_at in Hm. by destruct (at_pos cs p).
Qed.

Lemma range3 (x : Z) : range (x - 1) (x + 2) = [x + -1; x + 0; x + 1].
Proof.
  unfold range. replace (x + 2 - (x - 1)) with 3 by lia.
  unfold seqZ. simpl.
  assert (∀ a b c a' b' c' : Z,
            a = a' → b = b' → c = c' → [a; b; c] = [a'; b'; c']) as Heq
    by (by intros; subst).
  apply Heq; lia.
Qed.

Lemma hit_spec (w h : Z) (cs : list (list Cell)) (count r c : Z) :
  shape w h cs →
  (if _is_valid_position w h r c then
     cell ← cell_ref cs r c; Ok (if has_mine cell then count + 1 else count)
   else Ok count)
  = Ok (count + Z.b2z (bool_decide (in_bounds w h (r, c)) && mine_at cs (r, c))).
Proof.
  intros Hshape. rewrite is_valid_position_spec. case_bool_decide as Hin; simpl.
  - destruct (cell_ref_in_bounds w h cs r c Hshape Hin) as (cell & Hat & ->).
    simpl. unfold mine_at. rewrite Hat. destruct (has_mine cell); simpl; f_equal; lia.
  - f_equal. lia.
Qed.

Lemma length_filter_b2z {A : Type} (P : A → Prop) `{!∀ x, Decision (P x)}
    (l : list A) :
  Z.of_nat (length (filter P l))
  = foldr (λ x acc, Z.b2z (bool_decide (P x)) + acc) 0 l.
Proof.
  induction l as [|x l IH]; simpl; [done|].
  rewrite filter_cons. case_decide.
  - rewrite bool_decide_eq_true_2 by done. simpl length. rewrite <- IH. simpl. lia.
  - rewrite bool_decide_eq_false_2 by done. rewrite <- IH. simpl. lia.
Qed.

(** The loops count the mine at the position itself, if there is one, and
    the mines among its eight neighbours inside the grid. *)
Lemma count_around_spec (w h : Z) (cs : list (list Cell)) (r c : Z) :
  shape w h cs →
  count_around w h cs r c
  = Ok (Z.b2z (mine_at cs (r, c)) + neighbour_mines w h cs (r, c)).
Proof.
  intros Hshape.
  assert (count_around w h cs r c
          = Ok (foldl (λ count r',
                  foldl (λ count c',
                    count + Z.b2z (bool_decide (in_bounds w h (r', c'))
                                   && mine_at cs (r', c')))
                    count (range (c - 1) (c + 2)))
                  0 (range (r - 1) (r + 2)))) as ->.
  { unfold count_around. rewrite <- for_each_pure.
    apply for_each_ext. intros count r' _. rewrite <- for_each_pure.
    apply for_each_ext. intros count' c' _. by apply hit_spec. }
  rewrite !range3. simpl.
  unfold neighbour_mines. rewrite length_filter_b2z. simpl.
  rewrite !bool_decide_and.
  assert (∀ b, bool_decide (b = true) = b) as Hb by (by intros []).
  rewrite !Hb, !Z.add_0_r.
  assert (bool_decide (in_bounds w h (r, c)) && mine_at cs (r, c)
          = mine_at cs (r, c)) as ->.
  { destruct (mine_at cs (r, c)) eqn:Hm; [|by rewrite andb_false_r].
    rewrite bool_decide_eq_true_2; [done|]. by eapply mine_at_in_bounds. }
  f_equal. lia.
Qed.

Lemma neighbour_mines_ext (w h : Z) (cs cs' : list (list Cell)) (p : Z * Z) :
  (∀ q, mine_at cs q = mine_at cs' q) →
  neighbour_mines w h cs p = neighbour_mines w h cs' p.
Proof.
  intros Hext. unfold neighbour_mines. do 2 f_equal.
  apply list_filter_iff. intros d. by rewrite Hext.
Qed.

(** ** Setting the counts *)

Lemma set_adjacent_mine_count_spec (w h : Z) (ps : list (Z * Z)) :
  ∀ cs : list (list Cell),
    shape w h cs → (∀ p, p ∈ ps → in_bounds w h p) →
    ∃ cs', _set_adjacent_mine_count w h cs ps = Ok cs' ∧ shape w h cs' ∧
      ∀ p, at_pos cs' p
           = (λ cell, if decide (p ∈ ps)
                      then set_adjacent_mines_count
                             (Z.b2z (mine_at cs p) + neighbour_mines w h cs p)
                             cell
                      else cell) <$> at_pos cs p.
Proof.
  unfold _set_adjacent_mine_count.
  induction ps as [|[r c] ps IH]; intros cs Hshape Hin; simpl.
  - exists cs. split; [done|]. split; [done|]. intros p.
    by destruct (at_pos cs p).
  - rewrite count_around_spec by done. simpl.
    set (n := Z.b2z (mine_at cs (r, c)) + neighbour_mines w h cs (r, c)).
    destruct (alter_cell_in_bounds (set_adjacent_mines_count n) w h cs r c)
      as (cs1 & -> & Hshape1 & Hat1); [done|apply Hin; by left|].
    simpl. destruct (IH cs1) as (cs' & Hcs' & Hshape' & Hat');
      [done|intros p Hp; apply Hin; by right|].
    assert (∀ q, mine_at cs1 q = mine_at cs q) as Hmine.
    { intros q. unfold mine_at. rewrite Hat1.
      case_decide; [|done]. by destruct (at_pos cs q). }
    exists cs'. split; [done|]. split; [done|]. intros p.
    rewrite Hat', Hat1, Hmine, (neighbour_mines_ext w h cs1 cs p Hmine).
    destruct (decide (p = (r, c))) as [->|Hne];
      (destruct (at_pos cs _) as [cell|]; [|done]); simpl.
    + rewrite (decide_True (P := (r, c) ∈ (r, c) :: ps)) by left.
      by case_decide.
    + destruct (decide (p ∈ ps)) as [Hp|Hp].
      * by rewrite decide_True by (by right).
      * rewrite decide_False; [done|]. rewrite elem_of_cons. tauto.
Qed.

(** ** Construction *)

(** What [Grid.__init__] builds whenever the sample can be drawn: the mines
    are the sampled positions; a mine cell keeps the initial count [0], and
    every other cell holds the number of mines among its neighbours. *)
Lemma Grid_init_spec (rand : nat → nat) (w h : Z) :
  0 ≤ (w * h) `div` 4 ≤ Z.of_nat (Z.to_nat h * Z.to_nat w) →
  ∃ (ms : list (Z * Z)) (cs : list (list Cell)),
    _generate_mine_positions rand (_generate_grid_coordinate_positions w h)
      ((w * h) `div` 4) = Ok ms ∧
    NoDup ms ∧ Z.of_nat (length ms) = (w * h) `div` 4 ∧
    (∀ p, p ∈ ms → in_bounds w h p) ∧
    Grid_init rand w h = Ok (mkGrid w h cs ((w * h) `div` 4)) ∧
    shape w h cs ∧
    ∀ p, in_bounds w h p →
         at_pos cs p
         = Some (if decide (p ∈ ms) then mkCell true 0 false
                 else mkCell false (neighbour_mines w h cs p) false).
Proof.
  intros Hk. unfold Grid_init, _set_cell_mines_and_adjacent_counts.
  set (ps := _generate_grid_coordinate_positions w h).
  destruct (sample_spec rand ps ((w * h) `div` 4))
    as (ms & Hms & Hlen & Hnd & Hsub).
  { apply NoDup_positions. }
  { unfold ps. by rewrite length_positions. }
  assert (∀ p, p ∈ ms → in_bounds w h p) as Hin.
  { intros p Hp. apply elem_of_positions. by apply Hsub. }
  unfold _generate_mine_positions. rewrite Hms. simpl.
  destruct (place_mines_spec w h ms (_create_empty_cells w h))
    as (cs1 & -> & Hshape1 & Hat1); [apply shape_create_empty_cells|done|].
  simpl.
  destruct (set_adjacent_mine_count_spec w h
              (elements (_identify_non_mine_positions ps ms)) cs1)
    as (cs2 & -> & Hshape2 & Hat2); [done| |].
  { intros p Hp. apply elem_of_elements in Hp.
    unfold _identify_non_mine_positions in Hp.
    apply elem_of_difference in Hp as [Hp _].
    apply elem_of_list_to_set in Hp. by apply elem_of_positions. }
  simpl. exists ms, cs2. repeat (split; [done|]).
  assert (∀ q, mine_at cs2 q = mine_at cs1 q) as Hmine.
  { intros q. unfold mine_at. rewrite Hat2.
    destruct (at_pos cs1 q); [|done]. simpl. by case_decide. }
  intros p Hp.
  rewrite (neighbour_mines_ext w h cs2 cs1 p Hmine).
  assert (at_pos cs1 p
          = Some (if decide (p ∈ ms) then mkCell true 0 false
                  else mkCell false 0 false)) as Hp1.
  { rewrite Hat1.
    destruct (proj2 (at_pos_in_bounds w h _ p (shape_create_empty_cells w h)) Hp)
      as [cell Hcell].
    rewrite Hcell. apply at_pos_create_empty_cells in Hcell as ->.
    simpl. by case_decide. }
  rewrite Hat2. unfold mine_at. rewrite Hp1. simpl.
  destruct (decide (p ∈ ms)) as [Hpm|Hpm].
  - rewrite decide_False; [done|].
    rewrite elem_of_elements. unfold _identify_non_mine_positions.
    rewrite elem_of_difference, !elem_of_list_to_set. tauto.
  - rewrite decide_True.
    + unfold set_adjacent_mines_count. simpl. do 2 f_equal.
    + rewrite elem_of_elements. unfold _identify_non_mine_positions.
      rewrite elem_of_difference, !elem_of_list_to_set. split; [|done].
      by apply elem_of_positions.
Qed.

(** ** Counting the mines *)

Lemma fmap_pairs {A B C : Type} (g : A * B → C) (l : list A) (k : list B) :
  g <$> (x ← l; y ← k; [(x, y)]) = x ← l; (λ y, g (x, y)) <$> k.
Proof.
  induction l as [|x l IH]; [done|].
  rewrite !bind_cons, fmap_app, IH. f_equal.
  clear IH. induction k as [|y k IH]; [done|].
  rewrite bind_cons, fmap_app, IH. done.
Qed.

Lemma bind_ext_in {A B : Type} (f g : A → list B) (l : list A) :
  (∀ x, x ∈ l → f x = g x) → l ≫= f = l ≫= g.
Proof.
  induction l as [|x l IH]; intros Hfg; [done|].
  rewrite !bind_cons, Hfg by left. f_equal. apply IH. intros y Hy. apply Hfg. by right.
Qed.

Lemma bind_one {A B : Type} (f : A → list B) (x : A) : [x] ≫= f = f x.
Proof. rewrite bind_cons. apply app_nil_r. Qed.

Lemma row_lookups {A : Type} (l : list A) :
  Some <$> l = (λ c, l !! Z.to_nat c) <$> seqZ 0 (Z.of_nat (length l)).
Proof.
  apply list_eq. intros i. rewrite !list_lookup_fmap.
  destruct (decide (i < length l)%nat) as [Hi|Hi].
  - rewrite lookup_seqZ_lt by lia. simpl.
    replace (Z.to_nat (0 + Z.of_nat i)) with i by lia.
    destruct (lookup_lt_is_Some_2 l i Hi) as [x Hx]. by rewrite Hx.
  - rewrite lookup_seqZ_ge by lia. by rewrite lookup_ge_None_2 by lia.
Qed.

Lemma concat_at_pos (w : Z) (cs : list (list Cell)) :
  Forall (λ line, length line = Z.to_nat w) cs → 0 ≤ w →
  Some <$> concat cs
  = r ← seqZ 0 (Z.of_nat (length cs)); (λ c, at_pos cs (r, c)) <$> seqZ 0 w.
Proof.
  induction cs as [|line cs IH] using rev_ind; intros Hall Hw; [done|].
  apply Forall_app in Hall as [Hall Hline].
  rewrite Forall_singleton in Hline.
  rewrite concat_app, fmap_app, IH by done. simpl. rewrite app_nil_r.
  rewrite length_app. simpl length. rewrite Nat.add_1_r, seqZ_S, bind_app.
  f_equal.
  - apply bind_ext_in. intros r Hr. apply elem_of_seqZ in Hr.
    apply list_fmap_ext. intros i c Hc. apply lookup_seqZ in Hc as [-> Hc].
    unfold at_pos. simpl. rewrite lookup_app_l by lia. done.
  - rewrite bind_one, row_lookups.
    rewrite Hline, Z2Nat.id by done.
    apply list_fmap_ext. intros i c Hc. apply lookup_seqZ in Hc as [-> Hc].
    unfold at_pos. simpl. rewrite bool_decide_eq_true_2 by lia.
    rewrite lookup_app_r by lia.
    replace (Z.to_nat (0 + Z.of_nat (length cs)) - length cs)%nat with 0%nat by lia.
    done.
Qed.

Lemma filter_fmap_length {A B : Type} (f : A → B) (P : B → Prop)
    `{!∀ y, Decision (P y)} (l : list A) :
  length (filter P (f <$> l)) = length (filter (λ x, P (f x)) l).
Proof.
  induction l as [|x l IH]; [done|].
  rewrite fmap_cons, !filter_cons. case_decide; simpl; by rewrite IH.
Qed.

Lemma count_mines_positions (w h : Z) (cs : list (list Cell)) :
  shape w h cs →
  count_mines cs
  = length (filter (λ p, mine_at cs p = true)
                   (_generate_grid_coordinate_positions w h)).
Proof.
  intros [Hlen Hall]. unfold count_mines.
  destruct (decide (0 ≤ w)) as [Hw|Hw].
  - transitivity (length (filter (λ o : option Cell, has_mine <$> o = Some true)
                                 (Some <$> concat cs))).
    { rewrite filter_fmap_length. f_equal. apply list_filter_iff.
      intros cell. simpl. split; [by intros ->|by intros [= ->]]. }
    rewrite (concat_at_pos w) by done.
    rewrite <- fmap_pairs, filter_fmap_length.
    unfold _generate_grid_coordinate_positions, range.
    rewrite Hlen, !Z.sub_0_r.
    assert (seqZ 0 (Z.of_nat (Z.to_nat h)) = seqZ 0 h) as ->.
    { destruct (decide (0 ≤ h)); [by rewrite Z2Nat.id|].
      by rewrite (seqZ_nil 0 h), (seqZ_nil 0 (Z.of_nat _)) by lia. }
    f_equal. apply list_filter_iff. intros p. unfold mine_at.
    destruct (at_pos cs p) as [cell|]; simpl; [|done].
    split; [by intros [= ->]|by intros ->].
  - assert (concat cs = []) as ->.
    { clear Hlen. induction Hall as [|line cs Hline _ IH]; [done|].
      simpl in *. rewrite IH, app_nil_r. apply nil_length_inv. lia. }
    unfold _generate_grid_coordinate_positions, range.
    rewrite (seqZ_nil 0 (w - 0)) by lia.
    simpl. induction (seqZ 0 (h - 0)) as [|r rs IH]; [done|].
    by rewrite bind_cons.
Qed.

(** ** Facts about constructed grids *)

Lemma quarter_bounds (w h : Z) :
  0 < w → 0 < h →
  0 ≤ (w * h) `div` 4 ≤ Z.of_nat (Z.to_nat h * Z.to_nat w).
Proof.
  intros Hw Hh.
  assert (0 ≤ w * h) by nia.
  pose proof (Z.div_pos (w * h) 4). pose proof (Z.mul_div_le (w * h) 4).
  replace (Z.of_nat (Z.to_nat h * Z.to_nat w)) with (w * h) by nia. lia.
Qed.

(** With no positions to draw from, the sample can be drawn exactly when no
    mine is requested. *)
Lemma degenerate_bounds (w h : Z) :
  w ≤ 0 ∨ h ≤ 0 →
  (0 ≤ (w * h) `div` 4 ≤ Z.of_nat (Z.to_nat h * Z.to_nat w))
  ↔ 0 ≤ w * h < 4.
Proof.
  intros Hwh.
  assert (Z.of_nat (Z.to_nat h * Z.to_nat w) = 0) as -> by nia.
  split.
  - intros Hk. assert ((w * h) `div` 4 = 0) as Hq by lia.
    apply Z.div_small_iff in Hq; lia.
  - intros Hs. rewrite Z.div_small by done. lia.
Qed.

Lemma Grid_init_ValueError (rand : nat → nat) (w h : Z) :
  ¬ (0 ≤ (w * h) `div` 4 ≤ Z.of_nat (Z.to_nat h * Z.to_nat w)) →
  Grid_init rand w h = Raise ValueError.
Proof.
  intros Hk. unfold Grid_init, _set_cell_mines_and_adjacent_counts,
    _generate_mine_positions.
  rewrite sample_ValueError; [done|]. by rewrite length_positions.
Qed.

(** The cells of a constructed grid that carry a mine are the sampled
    positions. *)
Lemma mine_at_sampled (w h : Z) (ms : list (Z * Z)) (cs : list (list Cell)) :
  shape w h cs → (∀ p, p ∈ ms → in_bounds w h p) →
  (∀ p, in_bounds w h p →
        at_pos cs p
        = Some (if decide (p ∈ ms) then mkCell true 0 false
                else mkCell false (neighbour_mines w h cs p) false)) →
  ∀ p, mine_at cs p = true ↔ p ∈ ms.
Proof.
  intros Hshape Hin Hat p. split.
  - intros Hm. pose proof (mine_at_in_bounds w h cs p Hshape Hm) as Hp.
    unfold mine_at in Hm. rewrite (Hat p Hp) in Hm. by case_decide.
  - intros Hp. unfold mine_at. rewrite (Hat p (Hin p Hp)).
    by rewrite decide_True.
Qed.

Lemma count_mines_sampled (w h : Z) (ms : list (Z * Z))
    (cs : list (list Cell)) :
  shape w h cs → NoDup ms → (∀ p, p ∈ ms → in_bounds w h p) →
  (∀ p, mine_at cs p = true ↔ p ∈ ms) →
  count_mines cs = length ms.
Proof.
  intros Hshape Hnd Hin Hmine.
  rewrite (count_mines_positions w h) by done.
  apply Permutation_length, NoDup_Permutation; [|done|].
  - apply NoDup_filter, NoDup_positions.
  - intros p. rewrite list_elem_of_filter, Hmine, elem_of_positions.
    split; [tauto|]. intros Hp. split; [done|by apply Hin].
Qed.

Lemma elem_of_cells (w h : Z) (cs : list (list Cell)) (line : list Cell)
    (cell : Cell) :
  shape w h cs → line ∈ cs → cell ∈ line →
  ∃ p, in_bounds w h p ∧ at_pos cs p = Some cell.
Proof.
  intros Hshape Hline Hcell.
  apply list_elem_of_lookup in Hline as [i Hi].
  apply list_elem_of_lookup in Hcell as [j Hj].
  assert (at_pos cs (Z.of_nat i, Z.of_nat j) = Some cell) as Hat.
  { unfold at_pos. simpl. rewrite bool_decide_eq_true_2 by lia.
    rewrite !Nat2Z.id, Hi. done. }
  exists (Z.of_nat i, Z.of_nat j). split; [|done].
  apply (at_pos_in_bounds w h cs _ Hshape). by rewrite Hat.
Qed.

(** ** Claims about construction *)

(** C1: for every width > 0 and height > 0, [Grid(width, height)] is built
    and has exactly [floor(width*height/4)] cells with [has_mine = true]; the
    mine positions are pairwise distinct positions of the grid (a sample
    without replacement), and the mine cells are exactly those positions. *)
Theorem mine_count_exact (rand : nat → nat) (w h : Z) :
  0 < w → 0 < h →
  ∃ (ms : list (Z * Z)) (g : Grid),
    _generate_mine_positions rand (_generate_grid_coordinate_positions w h)
      ((w * h) `div` 4) = Ok ms ∧
    Grid_init rand w h = Ok g ∧
    Z.of_nat (length (_generate_grid_coordinate_positions w h)) = w * h ∧
    NoDup ms ∧
    (∀ p, p ∈ ms → p ∈ _generate_grid_coordinate_positions w h) ∧
    (∀ p, mine_at (cells g) p = true ↔ p ∈ ms) ∧
    Z.of_nat (length ms) = (w * h) `div` 4 ∧
    Z.of_nat (count_mines (cells g)) = (w * h) `div` 4.
Proof.
  intros Hw Hh.
  destruct (Grid_init_spec rand w h (quarter_bounds w h Hw Hh))
    as (ms & cs & Hms & Hnd & Hlen & Hin & Hinit & Hshape & Hat).
  pose proof (mine_at_sampled w h ms cs Hshape Hin Hat) as Hmine.
  exists ms, (mkGrid w h cs ((w * h) `div` 4)). simpl.
  repeat (split; [done|]). split; [rewrite length_positions; nia|].
  split; [done|]. split; [|split; [done|split; [done|]]].
  - intros p Hp. by apply elem_of_positions, Hin.
  - by rewrite (count_mines_sampled w h ms cs).
Qed.

(** C2: in every grid built by [Grid(width, height)] with positive
    dimensions, the cell at every position [(r, c)] of the grid is read
    without error, and if it is not a mine its [adjacent_mines_count] is the
    number of mine cells among the eight neighbour positions that lie inside
    [[0,height) x [0,width)]; [neighbour_mines] reads neighbours without
    wrap-around, so positions over the edge count for nothing. *)
Theorem adjacent_count_exact (rand : nat → nat) (w h : Z) :
  0 < w → 0 < h →
  ∃ g : Grid,
    Grid_init rand w h = Ok g ∧
    ∀ r c, 0 ≤ r < h → 0 ≤ c < w →
      ∃ cell, cell_ref (cells g) r c = Ok cell ∧
              (has_mine cell = false →
               adjacent_mines_count cell
               = neighbour_mines w h (cells g) (r, c)).
Proof.
  intros Hw Hh.
  destruct (Grid_init_spec rand w h (quarter_bounds w h Hw Hh))
    as (ms & cs & _ & _ & _ & _ & Hinit & Hshape & Hat).
  exists (mkGrid w h cs ((w * h) `div` 4)). split; [done|]. simpl.
  intros r c Hr Hc.
  destruct (cell_ref_in_bounds w h cs r c Hshape) as (cell & Hcell & Href);
    [done|].
  exists cell. split; [done|]. intros Hnm.
  rewrite Hat in Hcell by done. injection Hcell as <-.
  by case_decide.
Qed.

Lemma length_concat_shape (w h : Z) (cs : list (list Cell)) :
  shape w h cs → length (concat cs) = (Z.to_nat h * Z.to_nat w)%nat.
Proof.
  intros [<- Hall]. induction Hall as [|line cs Hline _ IH]; [done|].
  simpl. rewrite length_app, IH, Hline. lia.
Qed.

Lemma shape_no_cells (w h : Z) (cs : list (list Cell)) :
  shape w h cs → w ≤ 0 ∨ h ≤ 0 → cs = replicate (Z.to_nat h) [].
Proof.
  intros [Hlen Hall] Hwh. symmetry. apply replicate_as_Forall. split; [done|].
  destruct Hwh as [Hw|Hh].
  - eapply Forall_impl; [exact Hall|]. intros line Hline. simpl in Hline.
    symmetry. apply nil_length_inv. lia.
  - assert (cs = []) as -> by (apply nil_length_inv; lia). constructor.
Qed.

(** C6: for width = 2 and height = 2, whatever the generator draws, the
    grid is built with [mine_count = 1]; it has four cells, exactly one of
    which is a mine, and every cell that is not a mine has
    [adjacent_mines_count = 1].  Each of the four positions holds the mine
    for some draw. *)
Theorem two_by_two :
  (∀ rand : nat → nat,
     ∃ g : Grid,
       Grid_init rand 2 2 = Ok g ∧
       mine_count g = 1 ∧
       length (concat (cells g)) = 4%nat ∧
       count_mines (cells g) = 1%nat ∧
       ∀ line cell, line ∈ cells g → cell ∈ line → has_mine cell = false →
                    adjacent_mines_count cell = 1) ∧
  (∀ p, in_bounds 2 2 p →
        ∃ (rand : nat → nat) (g : Grid),
          Grid_init rand 2 2 = Ok g ∧ mine_at (cells g) p = true).
Proof.
  split; [intros rand|].
  2:{ intros [r c] [Hr Hc]. simpl in *.
      assert (r = 0 ∨ r = 1) as [-> | ->] by lia;
      assert (c = 0 ∨ c = 1) as [-> | ->] by lia.
      - exists (λ _, 0%nat). eexists. split; by vm_compute.
      - exists (λ _, 1%nat). eexists. split; by vm_compute.
      - exists (λ _, 2%nat). eexists. split; by vm_compute.
      - exists (λ _, 3%nat). eexists. split; by vm_compute. }
  destruct (Grid_init_spec rand 2 2 (quarter_bounds 2 2 ltac:(lia) ltac:(lia)))
    as (ms & cs & _ & Hnd & Hlen & Hin & Hinit & Hshape & Hat).
  change ((2 * 2) `div` 4) with 1 in *.
  pose proof (mine_at_sampled 2 2 ms cs Hshape Hin Hat) as Hmine.
  exists (mkGrid 2 2 cs 1). simpl. split; [done|]. split; [done|].
  split; [by rewrite (length_concat_shape 2 2)|].
  split; [rewrite (count_mines_sampled 2 2 ms cs) by done; lia|].
  destruct ms as [|m [|m' ms]]; simpl in Hlen; try lia.
  intros line cell Hline Hcell Hnm.
  destruct (elem_of_cells 2 2 cs line cell Hshape Hline Hcell)
    as (p & Hp & Hpc).
  rewrite Hat in Hpc by done. injection Hpc as <-.
  case_decide as Hpm; [done|]. simpl.
  assert (in_bounds 2 2 m) as Hm by (apply Hin; by left).
  assert (p ≠ m) as Hne by (intros ->; apply Hpm; by left).
  unfold neighbour_mines.
  rewrite (list_filter_iff _ (λ d : Z * Z, (p.1 + d.1, p.2 + d.2) = m)).
  - destruct p as [pr pc], m as [mr mc], Hp as [Hpr Hpc], Hm as [Hmr Hmc].
    simpl in *.
    assert (pr = 0 ∨ pr = 1) as [-> | ->] by lia;
    assert (pc = 0 ∨ pc = 1) as [-> | ->] by lia;
    assert (mr = 0 ∨ mr = 1) as [-> | ->] by lia;
    assert (mc = 0 ∨ mc = 1) as [-> | ->] by lia;
    done || by vm_compute.
  - intros d. rewrite Hmine, list_elem_of_singleton. split; [tauto|].
    intros Heq. split; [|done]. by rewrite Heq.
Qed.

(** C3, as amended: with [width <= 0] or [height <= 0] there are no
    positions to sample from, and no dimension check exists.  Construction
    succeeds with a grid of no cells and [mine_count = 0] when
    [0 <= width*height < 4] (the requested number of mines is then 0), and
    fails with the [ValueError] of [random.sample] otherwise.  [ValueError] is
    the only error that construction can raise, for any dimensions; the
    queries raise [IndexError] for a row index beyond the matrix, and no
    other error. *)
Theorem degenerate_dimensions (rand : nat → nat) (w h : Z) :
  w ≤ 0 ∨ h ≤ 0 →
  (0 ≤ w * h < 4 →
   Grid_init rand w h = Ok (mkGrid w h (replicate (Z.to_nat h) []) 0)) ∧
  (¬ (0 ≤ w * h < 4) → Grid_init rand w h = Raise ValueError) ∧
  (∀ (rand' : nat → nat) (w' h' : Z) (e : exn),
     Grid_init rand' w' h' = Raise e → e = ValueError) ∧
  (∀ (g : Grid) (r c : Z),
     Z.of_nat (length (cells g)) ≤ r →
     is_cell_opened g r c = Raise IndexError ∧
     has_mine_at g (mkCoordinate r c) = Raise IndexError) ∧
  (∀ (g : Grid) (r c : Z) (e : exn),
     is_cell_opened g r c = Raise e ∨
     has_mine_at g (mkCoordinate r c) = Raise e →
     e = IndexError).
Proof.
  intros Hwh. split; [|split; [|split; [|split]]].
  - intros Hs.
    destruct (Grid_init_spec rand w h)
      as (ms & cs & _ & _ & _ & _ & Hinit & Hshape & _).
    { by apply degenerate_bounds. }
    rewrite Hinit, Z.div_small by done.
    by rewrite (shape_no_cells w h cs).
  - intros Hs. apply Grid_init_ValueError. by rewrite degenerate_bounds.
  - intros rand' w' h' e He.
    destruct (decide (0 ≤ (w' * h') `div` 4
                      ≤ Z.of_nat (Z.to_nat h' * Z.to_nat w'))) as [Hk|Hk].
    + destruct (Grid_init_spec rand' w' h' Hk)
        as (ms & cs & _ & _ & _ & _ & Hinit & _). congruence.
    + rewrite Grid_init_ValueError in He by done. congruence.
  - intros g r c Hr. unfold is_cell_opened, has_mine_at, cell_ref. simpl.
    rewrite getitem_out_of_range by (by left). done.
  - intros g r c e. unfold is_cell_opened, has_mine_at. simpl.
    intros [H|H]; apply bind_Raise in H as [H|(cell & _ & H)]; try done;
      by apply cell_ref_Raise in H.
Qed.

Lemma degenerate_dimensions_witness :
  (-1 ≤ 0 ∨ 3 ≤ 0) ∧
  Grid_init demo_rand (-1) 3 = Raise ValueError.
Proof.
  split; [lia|].
  apply (degenerate_dimensions demo_rand (-1) 3); lia.
Defined.

(** C3 as stated fails: [Grid(0, 1)] is built, with one empty row. *)
Lemma zero_width_grid_is_built :
  (0 ≤ 0 ∨ 1 ≤ 0) ∧
  Grid_init (λ _, 0%nat) 0 1 = Ok (mkGrid 0 1 [[]] 0) ∧
  ¬ ∃ e, Grid_init (λ _, 0%nat) 0 1 = Raise e.
Proof.
  split; [lia|]. split; [by vm_compute|]. by intros [e He].
Qed.

(** ** The console loops *)

Lemma get_valid_coordinate_loop_spec (prompt : string) (max_index : Z)
    (inp : list (option Z)) :
  ∀ (out : list output) (z : Z) (k' : console),
    _get_valid_coordinate_loop prompt max_index inp out = Ok (z, k') →
    0 ≤ z ≤ max_index ∧ (length (stdin k') < length inp)%nat.
Proof.
  induction inp as [|entry inp IH]; intros out z k' H; simpl in H; [done|].
  destruct entry as [coordinate|].
  - case_bool_decide as Hc.
    + injection H as <- <-. simpl. split; [done|lia].
    + apply IH in H as [? ?]. simpl. split; [done|lia].
  - apply IH in H as [? ?]. simpl. split; [done|lia].
Qed.

Lemma get_valid_coordinate_spec (plane : string) (max_index : Z)
    (k k' : console) (z : Z) :
  _get_valid_coordinate plane max_index k = Ok (z, k') →
  0 ≤ z ≤ max_index ∧ (length (stdin k') < length (stdin k))%nat.
Proof. apply get_valid_coordinate_loop_spec. Qed.

(** A guess that is returned names a cell inside the index range that is
    not open, and at least two lines were read for it. *)
Lemma get_user_guess_loop_spec (game : Minesweeper) (fuel : nat) :
  ∀ (k k' : console) (guess : Coordinate),
    _get_user_guess_loop fuel game k = Ok (guess, k') →
    is_cell_opened (grid game) (row guess) (column guess) = Ok false ∧
    0 ≤ row guess ≤ height (grid game) - 1 ∧
    0 ≤ column guess ≤ width (grid game) - 1 ∧
    (length (stdin k') + 2 ≤ length (stdin k))%nat.
Proof.
  induction fuel as [|fuel IH]; intros k k' guess H; simpl in H; [done|].
  inv_bind H. destruct a as [column_index k1].
  inv_bind H. destruct a as [row_index k2].
  inv_bind H. destruct a as [|].
  - apply IH in H as (? & ? & ? & Hlen). repeat (split; [done|]).
    apply get_valid_coordinate_spec in Ha as [_ Hk1].
    apply get_valid_coordinate_spec in Ha0 as [_ Hk2].
    simpl in *. lia.
  - injection H as <- <-. simpl.
    apply get_valid_coordinate_spec in Ha as [Hc Hk1].
    apply get_valid_coordinate_spec in Ha0 as [Hr Hk2].
    simpl in *. repeat (split; [done|]). lia.
Qed.

(** The fuel of [_get_user_guess] is never used up: any amount above the
    number of pending lines gives the same result. *)
Lemma _get_user_guess_loop_fuel (game : Minesweeper) (fuel : nat) :
  ∀ (fuel' : nat) (k : console),
    (length (stdin k) < fuel)%nat → (length (stdin k) < fuel')%nat →
    _get_user_guess_loop fuel game k = _get_user_guess_loop fuel' game k.
Proof.
  induction fuel as [|fuel IH]; intros fuel' k Hf Hf'; [lia|].
  destruct fuel' as [|fuel']; [lia|]. simpl.
  destruct (_get_valid_coordinate "x" _ _) as [[column_index k1]|e] eqn:Hx;
    [|done]. simpl.
  destruct (_get_valid_coordinate "y" _ _) as [[row_index k2]|e] eqn:Hy;
    [|done]. simpl.
  destruct (is_cell_opened _ _ _) as [[|]|e]; try done. simpl.
  apply get_valid_coordinate_spec in Hx as [_ Hk1].
  apply get_valid_coordinate_spec in Hy as [_ Hk2].
  simpl in *. apply IH; simpl; lia.
Qed.

Lemma stdin_Grid_print (g : Grid) (k : console) :
  stdin (Grid_print g k) = stdin k.
Proof.
  unfold Grid_print. revert k.
  induction (cells g) as [|line cs IH]; intros k; simpl; [done|].
  by rewrite IH.
Qed.

(** ** One turn *)

Lemma open_cell_Ok (game game' : Minesweeper) (coordinate : Coordinate) :
  open_cell game coordinate = Ok game' ↔
  ∃ (i j : nat) (line : list Cell) (cell : Cell),
    Z.of_nat i = wrap_index (length (cells (grid game))) (row coordinate) ∧
    cells (grid game) !! i = Some line ∧
    Z.of_nat j = wrap_index (length line) (column coordinate) ∧
    line !! j = Some cell ∧
    game' = mkMinesweeper
              (mkGrid (width (grid game)) (height (grid game))
                      (<[i := <[j := Cell_open cell]> line]> (cells (grid game)))
                      (mine_count (grid game))).
Proof.
  unfold open_cell. rewrite bind_Ok. split.
  - intros (cs & Hcs & [= <-]).
    apply alter_cell_Ok in Hcs as (i & j & line & cell & ? & ? & ? & ? & ->).
    by exists i, j, line, cell.
  - intros (i & j & line & cell & ? & ? & ? & ? & ->).
    eexists. split; [|done]. apply alter_cell_Ok. by exists i, j, line, cell.
Qed.

Lemma insert_same_image {A B : Type} (f : A → B) (l : list A) (i : nat)
    (x y : A) :
  l !! i = Some x → f y = f x → f <$> <[i := y]> l = f <$> l.
Proof.
  intros Hx Hf. rewrite list_fmap_insert, Hf.
  apply list_insert_id. by rewrite list_lookup_fmap, Hx.
Qed.

Lemma open_cell_topology (game game' : Minesweeper) (coordinate : Coordinate) :
  open_cell game coordinate = Ok game' →
  topology (grid game') = topology (grid game).
Proof.
  intros H. apply open_cell_Ok in H
    as (i & j & line & cell & _ & Hline & _ & Hcell & ->).
  unfold topology. simpl. f_equal.
  apply (insert_same_image _ _ _ line); [done|].
  by apply (insert_same_image _ _ _ cell).
Qed.

Lemma open_cell_shape (game game' : Minesweeper) (coordinate : Coordinate) :
  open_cell game coordinate = Ok game' →
  width (grid game') = width (grid game) ∧
  height (grid game') = height (grid game) ∧
  ∀ w h, shape w h (cells (grid game)) → shape w h (cells (grid game')).
Proof.
  intros H. apply open_cell_Ok in H
    as (i & j & line & cell & _ & Hline & _ & Hcell & ->).
  simpl. repeat (split; [done|]). intros w h Hshape. by apply shape_insert.
Qed.

(** The three ways a turn can end. *)
Lemma turn_Ok (game game' : Minesweeper) (k k' : console) (st : status) :
  turn game k = Ok (st, game', k') →
  (st = Won ∧ has_unopened_non_mines (grid game) = false ∧ game' = game) ∨
  (∃ guess k1,
     has_unopened_non_mines (grid game) = true ∧
     _get_user_guess game (Grid_print (grid game) k) = Ok (guess, k1) ∧
     ((st = Lost ∧ has_mine_at (grid game) guess = Ok true ∧ game' = game) ∨
      (st = Playing ∧ has_mine_at (grid game) guess = Ok false ∧
       open_cell game guess = Ok game' ∧ k' = k1))).
Proof.
  unfold turn. destruct (has_unopened_non_mines (grid game)) eqn:Hcond.
  - intros H. right. inv_bind H. destruct a as [guess k1].
    exists guess, k1. split; [done|]. split; [done|].
    unfold _has_guessed_mine in H. inv_bind H. destruct a as [hit k2].
    inv_bind Ha0. destruct a as [|].
    + injection Ha0 as <- <-. injection H as <- <- <-. by left.
    + injection Ha0 as <- <-. inv_bind H. injection H as <- <- <-. by right.
  - intros [= <- <- <-]. by left.
Qed.

Lemma turn_topology (game game' : Minesweeper) (k k' : console) (st : status) :
  turn game k = Ok (st, game', k') →
  topology (grid game') = topology (grid game).
Proof.
  intros H. apply turn_Ok in H
    as [(_ & _ & ->)|(guess & k1 & _ & _ & [(_ & _ & ->)|(_ & _ & H & _)])];
    [done..|]. by eapply open_cell_topology.
Qed.

Lemma turn_reads (game game' : Minesweeper) (k k' : console) :
  turn game k = Ok (Playing, game', k') →
  (length (stdin k') + 2 ≤ length (stdin k))%nat.
Proof.
  intros H. apply turn_Ok in H
    as [(? & _)|(guess & k1 & _ & Hg & [(? & _)|(_ & _ & _ & ->)])];
    [done..|].
  apply get_user_guess_loop_spec in Hg as (_ & _ & _ & Hlen).
  by rewrite stdin_Grid_print in Hlen.
Qed.

(** ** The whole game *)

Lemma play_loop_topology (fuel : nat) :
  ∀ (game game' : Minesweeper) (k k' : console) (st : status),
    play_loop fuel game k = Ok (st, game', k') →
    topology (grid game') = topology (grid game).
Proof.
  induction fuel as [|fuel IH]; intros game game' k k' st H; simpl in H.
  - by injection H as <- <- <-.
  - inv_bind H. destruct a as [[st1 game1] k1].
    apply turn_topology in Ha. rewrite <- Ha.
    destruct st1; [by eapply IH|by injection H as <- <- <-..].
Qed.

(** With more fuel than pending lines the loop of [play] ends. *)
Lemma play_loop_ends (fuel : nat) :
  ∀ (game game' : Minesweeper) (k k' : console) (st : status),
    (length (stdin k) < fuel)%nat →
    play_loop fuel game k = Ok (st, game', k') → st ≠ Playing.
Proof.
  induction fuel as [|fuel IH]; intros game game' k k' st Hf H; [lia|].
  simpl in H. inv_bind H. destruct a as [[st1 game1] k1].
  destruct st1; [|by injection H as <- <- <-..].
  apply turn_reads in Ha. eapply IH; [|done]. lia.
Qed.

Lemma play_loop_fuel (fuel : nat) :
  ∀ (fuel' : nat) (game : Minesweeper) (k : console),
    (length (stdin k) < fuel)%nat → (length (stdin k) < fuel')%nat →
    play_loop fuel game k = play_loop fuel' game k.
Proof.
  induction fuel as [|fuel IH]; intros fuel' game k Hf Hf'; [lia|].
  destruct fuel' as [|fuel']; [lia|]. simpl.
  destruct (turn game k) as [[[st1 game1] k1]|e] eqn:Hturn; [|done]. simpl.
  destruct st1; [|done..].
  apply turn_reads in Hturn. apply IH; lia.
Qed.

Lemma play_ends (game game' : Minesweeper) (k k' : console) (st : status) :
  play game k = Ok (st, game', k') → st = Won ∨ st = Lost.
Proof.
  intros H. apply play_loop_ends in H; [|lia]. destruct st; tauto.
Qed.

(** ** Invariants of play *)

Lemma elem_of_insert2 (cs : list (list Cell)) (i j : nat) (line : list Cell)
    (x : Cell) (line' : list Cell) (cell' : Cell) :
  cs !! i = Some line →
  line' ∈ <[i := <[j := x]> line]> cs → cell' ∈ line' →
  cell' = x ∨ ∃ line0, line0 ∈ cs ∧ cell' ∈ line0.
Proof.
  intros Hline Hl Hc.
  apply list_elem_of_lookup in Hl as [a Ha].
  apply list_elem_of_lookup in Hc as [b Hb].
  destruct (decide (a = i)) as [->|Hai].
  - rewrite list_lookup_insert_eq in Ha by (by eapply lookup_lt_Some).
    injection Ha as <-.
    destruct (decide (b = j)) as [->|Hbj].
    + apply lookup_lt_Some in Hb as Hlt. rewrite length_insert in Hlt.
      rewrite list_lookup_insert_eq in Hb by done. left. congruence.
    + rewrite list_lookup_insert_ne in Hb by done. right. exists line.
      split; eapply list_elem_of_lookup_2; done.
  - rewrite list_lookup_insert_ne in Ha by done. right. exists line'.
    split; eapply list_elem_of_lookup_2; done.
Qed.

(** The cell that [open] marks is the cell that [has_mine_at] read. *)
Lemma open_cell_mines_closed (game game' : Minesweeper) (guess : Coordinate) :
  has_mine_at (grid game) guess = Ok false →
  open_cell game guess = Ok game' →
  mines_closed (cells (grid game)) → mines_closed (cells (grid game')).
Proof.
  intros Hmine Hopen Hinv.
  apply open_cell_Ok in Hopen
    as (i & j & line & cell & Hi & Hline & Hj & Hcell & ->).
  unfold has_mine_at in Hmine. inv_bind Hmine. injection Hmine as Hmine.
  apply cell_ref_Ok in Ha as (i' & j' & line' & Hi' & Hline' & Hj' & Hcell').
  assert (i' = i) as -> by lia. assert (line' = line) as -> by congruence.
  assert (j' = j) as -> by lia. assert (a = cell) as -> by congruence.
  simpl. intros line2 cell2 Hl2 Hc2 Hm2.
  destruct (elem_of_insert2 _ _ _ _ _ _ _ Hline Hl2 Hc2)
    as [->|(line0 & Hl0 & Hc0)].
  - simpl in Hm2. congruence.
  - by eapply Hinv.
Qed.

Lemma play_loop_mines_closed (fuel : nat) :
  ∀ (game game' : Minesweeper) (k k' : console) (st : status),
    play_loop fuel game k = Ok (st, game', k') →
    mines_closed (cells (grid game)) → mines_closed (cells (grid game')).
Proof.
  induction fuel as [|fuel IH]; intros game game' k k' st H Hinv; simpl in H.
  - by injection H as <- <- <-.
  - inv_bind H. destruct a as [[st1 game1] k1].
    assert (mines_closed (cells (grid game1))) as Hinv1.
    { apply turn_Ok in Ha
        as [(_ & _ & ->)|(guess & k2 & _ & _ & [(_ & _ & ->)|(_ & ? & ? & _)])];
        [done..|]. by eapply open_cell_mines_closed. }
    destruct st1; [by eapply IH|by injection H as <- <- <-..].
Qed.

Lemma play_loop_shape (fuel : nat) :
  ∀ (game game' : Minesweeper) (k k' : console) (st : status),
    play_loop fuel game k = Ok (st, game', k') →
    width (grid game') = width (grid game) ∧
    height (grid game') = height (grid game) ∧
    ∀ w h, shape w h (cells (grid game)) → shape w h (cells (grid game')).
Proof.
  induction fuel as [|fuel IH]; intros game game' k k' st H; simpl in H.
  - by injection H as <- <- <-.
  - inv_bind H. destruct a as [[st1 game1] k1].
    assert (width (grid game1) = width (grid game) ∧
            height (grid game1) = height (grid game) ∧
            ∀ w h, shape w h (cells (grid game))
                   → shape w h (cells (grid game1))) as (Hw & Hh & Hs).
    { apply turn_Ok in Ha
        as [(_ & _ & ->)|(guess & k2 & _ & _ & [(_ & _ & ->)|(_ & _ & ? & _)])];
        [done..|]. by eapply open_cell_shape. }
    destruct st1; [|by injection H as <- <- <-..].
    apply IH in H as (Hw' & Hh' & Hs'). rewrite Hw', Hh'. eauto.
Qed.

Lemma topology_mines_count_zero (g g' : Grid) :
  topology g' = topology g →
  mines_count_zero (cells g) → mines_count_zero (cells g').
Proof.
  unfold topology. intros [= _ _ _ Hcells] Hinv line cell Hline Hcell Hm.
  set (view := λ cell : Cell, (has_mine cell, adjacent_mines_count cell)) in *.
  assert (fmap view line ∈ fmap (M := list) view <$> cells g) as Hl.
  { rewrite <- Hcells. by apply list_elem_of_fmap_2. }
  apply list_elem_of_fmap in Hl as (line0 & Hview & Hline0).
  assert (view cell ∈ view <$> line0) as Hc.
  { rewrite <- Hview. by apply list_elem_of_fmap_2. }
  apply list_elem_of_fmap in Hc as (cell0 & [= Hm0 Hn0] & Hcell0).
  rewrite Hn0. apply (Hinv line0 cell0); congruence.
Qed.

(** A freshly constructed grid, whatever its dimensions. *)
Lemma Grid_init_invariants (rand : nat → nat) (w h : Z) (g : Grid) :
  Grid_init rand w h = Ok g →
  width g = w ∧ height g = h ∧ shape w h (cells g) ∧
  mines_count_zero (cells g) ∧ mines_closed (cells g).
Proof.
  intros Hg.
  destruct (decide (0 ≤ (w * h) `div` 4
                    ≤ Z.of_nat (Z.to_nat h * Z.to_nat w))) as [Hk|Hk].
  - destruct (Grid_init_spec rand w h Hk)
      as (ms & cs & _ & _ & _ & _ & Hinit & Hshape & Hat).
    rewrite Hinit in Hg. injection Hg as <-. simpl.
    repeat (split; [done|]).
    split; intros line cell Hline Hcell Hm;
      destruct (elem_of_cells w h cs line cell Hshape Hline Hcell)
        as (p & Hp & Hpc);
      rewrite Hat in Hpc by done; injection Hpc as <-; by case_decide.
  - rewrite Grid_init_ValueError in Hg by done. done.
Qed.

(** ** Claims about queries and play *)

Lemma row_has_unopened_non_mine_spec (line : list Cell) :
  row_has_unopened_non_mine line = true ↔
  ∃ cell, cell ∈ line ∧ has_mine cell = false ∧ is_open cell = false.
Proof.
  induction line as [|cell line IH]; simpl.
  - split; [done|]. intros (cell & Hc & _). by apply elem_of_nil in Hc.
  - unfold Cell_unopened_non_mine at 1.
    destruct (is_open cell) eqn:Ho, (has_mine cell) eqn:Hm; simpl;
      rewrite ?IH; split;
      try (intros (c & Hc & ? & ?); exists c; split; [by right|done]);
      try (intros (c & Hc & ? & ?);
           apply elem_of_cons in Hc as [->|Hc]; [congruence|by exists c]).
    + intros _. exists cell. split; [by left|done].
    + done.
Qed.

(** C4: in every grid state, [has_unopened_non_mines] returns true exactly
    when some cell has [has_mine = false] and [is_open = false]; so it
    returns false exactly when every cell that is not a mine is open. *)
Theorem has_unopened_non_mines_spec (g : Grid) :
  (has_unopened_non_mines g = true ↔
   ∃ line cell, line ∈ cells g ∧ cell ∈ line ∧
                has_mine cell = false ∧ is_open cell = false) ∧
  (has_unopened_non_mines g = false ↔
   ∀ line cell, line ∈ cells g → cell ∈ line →
                has_mine cell = false → is_open cell = true).
Proof.
  assert (has_unopened_non_mines g = true ↔
          ∃ line cell, line ∈ cells g ∧ cell ∈ line ∧
                       has_mine cell = false ∧ is_open cell = false) as Hiff.
  { unfold has_unopened_non_mines.
    induction (cells g) as [|line cs IH]; simpl.
    - split; [done|]. intros (line & cell & Hl & _). by apply elem_of_nil in Hl.
    - destruct (row_has_unopened_non_mine line) eqn:Hrow.
      + split; [intros _|done].
        apply row_has_unopened_non_mine_spec in Hrow as (cell & ? & ? & ?).
        exists line, cell. split; [by left|done].
      + rewrite IH. split.
        * intros (line' & cell & ? & ?). exists line', cell. split; [by right|done].
        * intros (line' & cell & Hl & Hc).
          apply elem_of_cons in Hl as [->|Hl]; [|by exists line', cell].
          assert (row_has_unopened_non_mine line = true) as Hrow'
            by (apply row_has_unopened_non_mine_spec; by exists cell).
          congruence. }
  split; [done|].
  rewrite <- not_true_iff_false, Hiff. split.
  - intros Hno line cell Hl Hc Hm. destruct (is_open cell) eqn:Ho; [done|].
    destruct Hno. by exists line, cell.
  - intros Hall (line & cell & Hl & Hc & Hm & Ho).
    rewrite (Hall line cell) in Ho by done. done.
Qed.

(** C5: in a turn of [play], when the guess that [_get_user_guess] returns
    names a cell with [has_mine = true], the turn ends the game as [Lost]
    after the two messages, [play] returns at once with the grid as it was,
    and the guessed cell is not open in it.  Moreover no run of turns ever
    opens a mine cell. *)
Theorem mine_guess_loses (game : Minesweeper) (k k1 : console)
    (guess : Coordinate) :
  has_unopened_non_mines (grid game) = true →
  _get_user_guess game (Grid_print (grid game) k) = Ok (guess, k1) →
  has_mine_at (grid game) guess = Ok true →
  let k' := emit (PrintLine "You lose") (emit (PrintLine "You guessed a mine") k1) in
  turn game k = Ok (Lost, game, k') ∧
  play game k = Ok (Lost, game, k') ∧
  is_cell_opened (grid game) (row guess) (column guess) = Ok false ∧
  (∀ fuel game0 k0 st game' k0',
     mines_closed (cells (grid game0)) →
     play_loop fuel game0 k0 = Ok (st, game', k0') →
     mines_closed (cells (grid game'))).
Proof.
  intros Hcond Hguess Hmine k'.
  assert (turn game k = Ok (Lost, game, k')) as Hturn.
  { unfold turn, _has_guessed_mine. rewrite Hcond, Hguess. simpl.
    by rewrite Hmine. }
  split; [done|]. split; [|split].
  - unfold play. simpl. by rewrite Hturn.
  - by apply get_user_guess_loop_spec in Hguess as (? & _).
  - intros fuel game0 k0 st game' k0' Hinv Hplay.
    by eapply play_loop_mines_closed.
Qed.

(** C7: no number of turns of [play] changes the dimensions, the mine
    count, or any cell's [has_mine] and [adjacent_mines_count]; the queries
    are functions of the grid and return no grid.  [open] on a cell sets
    [is_open = true] on the named cell, keeps its other two fields, and
    leaves every other cell as it was. *)
Theorem only_is_open_changes :
  (∀ fuel game k st game' k',
     play_loop fuel game k = Ok (st, game', k') →
     topology (grid game') = topology (grid game)) ∧
  (∀ game coordinate game',
     open_cell game coordinate = Ok game' →
     topology (grid game') = topology (grid game) ∧
     ∃ (i j : nat) (line : list Cell) (cell : Cell),
       Z.of_nat i = wrap_index (length (cells (grid game))) (row coordinate) ∧
       cells (grid game) !! i = Some line ∧
       Z.of_nat j = wrap_index (length line) (column coordinate) ∧
       line !! j = Some cell ∧
       ∀ i' j' : nat,
         (cells (grid game') !! i') ≫= (.!! j')
         = if decide (i' = i ∧ j' = j)
           then Some (mkCell (has_mine cell) (adjacent_mines_count cell) true)
           else (cells (grid game) !! i') ≫= (.!! j')).
Proof.
  split.
  - intros fuel game k st game' k'. apply play_loop_topology.
  - intros game coordinate game' Hopen.
    split; [by eapply open_cell_topology|].
    apply open_cell_Ok in Hopen
      as (i & j & line & cell & Hi & Hline & Hj & Hcell & ->).
    exists i, j, line, cell. repeat (split; [done|]).
    intros i' j'. simpl. apply lookup2_insert; [done|].
    by eapply lookup_lt_Some.
Qed.

Lemma open_cell_already_open (game : Minesweeper) (r c : Z) :
  is_cell_opened (grid game) r c = Ok true →
  open_cell game (mkCoordinate r c) = Ok game.
Proof.
  intros Hopen. unfold is_cell_opened in Hopen. inv_bind Hopen.
  injection Hopen as Hopen.
  apply cell_ref_Ok in Ha as (i & j & line & Hi & Hline & Hj & Hcell).
  apply open_cell_Ok. exists i, j, line, a. repeat (split; [done|]).
  assert (Cell_open a = a) as -> by (destruct a; simpl in *; by subst).
  rewrite (list_insert_id line), (list_insert_id (cells (grid game))) by done.
  by destruct game as [[]].
Qed.

Lemma open_cell_opened (game game' : Minesweeper) (r c : Z) :
  open_cell game (mkCoordinate r c) = Ok game' →
  is_cell_opened (grid game') r c = Ok true.
Proof.
  intros H. apply open_cell_Ok in H
    as (i & j & line & cell & Hi & Hline & Hj & Hcell & ->).
  simpl in *. apply lookup_lt_Some in Hline as Hilt.
  apply lookup_lt_Some in Hcell as Hjlt.
  unfold is_cell_opened. simpl.
  assert (cell_ref (<[i := <[j := Cell_open cell]> line]> (cells (grid game)))
                   r c = Ok (Cell_open cell)) as ->; [|done].
  apply cell_ref_Ok. exists i, j, (<[j := Cell_open cell]> line).
  rewrite !length_insert. repeat (split; [done|]).
  rewrite !list_lookup_insert_eq by done. done.
Qed.

(** C8: [open] is idempotent.  Applied to a cell that is already open it
    returns the very state it was given, so no cell's [has_mine],
    [adjacent_mines_count] or [is_open] changes; in particular a second
    [open] of the same cell changes nothing. *)
Theorem open_is_idempotent (game : Minesweeper) (r c : Z) :
  (is_cell_opened (grid game) r c = Ok true →
   open_cell game (mkCoordinate r c) = Ok game) ∧
  (∀ game', open_cell game (mkCoordinate r c) = Ok game' →
            open_cell game' (mkCoordinate r c) = Ok game').
Proof.
  split; [apply open_cell_already_open|].
  intros game' H. by apply open_cell_already_open, (open_cell_opened game).
Qed.

(** C9: in a grid built by [Grid(width, height)], and after any number of
    turns of [play] on it, every cell with [has_mine = true] has
    [adjacent_mines_count = 0]; rendered as opened, such a cell shows ["0"]. *)
Theorem mine_cells_count_zero (rand : nat → nat) (w h : Z) (g : Grid)
    (fuel : nat) (k k' : console) (st : status) (game' : Minesweeper) :
  Grid_init rand w h = Ok g →
  play_loop fuel (mkMinesweeper g) k = Ok (st, game', k') →
  ∀ line cell, line ∈ cells (grid game') → cell ∈ line →
               has_mine cell = true →
               adjacent_mines_count cell = 0 ∧
               Cell_str (Cell_open cell) = "0".
Proof.
  intros Hinit Hplay line cell Hline Hcell Hm.
  apply Grid_init_invariants in Hinit as (_ & _ & _ & Hzero & _).
  apply play_loop_topology in Hplay.
  assert (adjacent_mines_count cell = 0) as Hn.
  { by apply (topology_mines_count_zero g (grid game') Hplay Hzero line cell). }
  split; [done|]. unfold Cell_str. simpl. rewrite Hn. done.
Qed.

Lemma getitem_wrapped {A : Type} (l : list A) (i : Z) :
  - Z.of_nat (length l) ≤ i < Z.of_nat (length l) →
  ∃ x, l !! Z.to_nat (i `mod` Z.of_nat (length l)) = Some x ∧
       getitem l i = Ok x.
Proof.
  intros Hi.
  pose proof (Z.mod_pos_bound i (Z.of_nat (length l)) ltac:(lia)) as Hm.
  destruct (lookup_lt_is_Some_2 l (Z.to_nat (i `mod` Z.of_nat (length l))))
    as [x Hx]; [lia|].
  exists x. split; [done|]. apply getitem_Ok.
  exists (Z.to_nat (i `mod` Z.of_nat (length l))).
  rewrite wrap_index_mod by done. split; [lia|done].
Qed.

(** C10: on a grid built by [Grid(width, height)], at any point of play,
    [is_cell_opened] and [has_mine_at] accept every row index in
    [[-height, height)] and column index in [[-width, width)]: they raise
    nothing and answer for the cell at [(row mod height, col mod width)], so a
    negative index silently wraps around. *)
Theorem negative_indices_wrap (rand : nat → nat) (w h : Z) (g : Grid)
    (fuel : nat) (k k' : console) (st : status) (game' : Minesweeper)
    (r c : Z) :
  Grid_init rand w h = Ok g →
  play_loop fuel (mkMinesweeper g) k = Ok (st, game', k') →
  - h ≤ r < h → - w ≤ c < w →
  height (grid game') = h ∧ width (grid game') = w ∧
  ∃ cell,
    at_pos (cells (grid game')) (r `mod` h, c `mod` w) = Some cell ∧
    is_cell_opened (grid game') r c = Ok (is_open cell) ∧
    has_mine_at (grid game') (mkCoordinate r c) = Ok (has_mine cell).
Proof.
  intros Hinit Hplay Hr Hc.
  apply Grid_init_invariants in Hinit as (Hw & Hh & Hshape & _).
  apply play_loop_shape in Hplay as (Hw' & Hh' & Hs). simpl in *.
  specialize (Hs w h Hshape) as [Hlen Hall].
  split; [congruence|]. split; [congruence|].
  destruct (getitem_wrapped (cells (grid game')) r) as (line & Hline & Hgl);
    [lia|].
  pose proof (Forall_lookup_1 _ _ _ _ Hall Hline) as Hll. simpl in Hll.
  destruct (getitem_wrapped line c) as (cell & Hcell & Hgc); [lia|].
  exists cell.
  pose proof (Z.mod_pos_bound r h ltac:(lia)).
  pose proof (Z.mod_pos_bound c w ltac:(lia)).
  split; [|split].
  - unfold at_pos. simpl. rewrite bool_decide_eq_true_2 by lia.
    replace (Z.of_nat (length (cells (grid game')))) with h in Hline by lia.
    rewrite Hline. simpl.
    by replace (Z.of_nat (length line)) with w in Hcell by lia.
  - unfold is_cell_opened, cell_ref. rewrite Hgl. simpl. by rewrite Hgc.
  - unfold has_mine_at, cell_ref. simpl. rewrite Hgl. simpl. by rewrite Hgc.
Qed.

(** ** The claims at concrete inputs *)

Example Grid_init_demo : Grid_init demo_rand 2 2 = Ok demo_grid.
Proof. by vm_compute. Qed.

(** With every raw draw 5, [Grid(3, 3)] gets its two mines at (1,2) and
    (2,2). *)
Example Grid_init_3_3 :
  Grid_init demo_rand 3 3
  = Ok (mkGrid 3 3
          [[mkCell false 0 false; mkCell false 1 false; mkCell false 1 false];
           [mkCell false 0 false; mkCell false 2 false; mkCell true 0 false];
           [mkCell false 0 false; mkCell false 2 false; mkCell true 0 false]]
          2).
Proof. by vm_compute. Qed.

Example Grid_init_1_1 :
  Grid_init demo_rand 1 1 = Ok (mkGrid 1 1 [[mkCell false 0 false]] 0).
Proof. by vm_compute. Qed.

Example Grid_init_negative_small :
  Grid_init demo_rand (-1) (-1) = Ok (mkGrid (-1) (-1) [] 0).
Proof. by vm_compute. Qed.

Example Grid_init_negative :
  Grid_init demo_rand (-2) (-2) = Raise ValueError.
Proof. by vm_compute. Qed.

(** On the sample game: guessing (x, y) = (0, 0), then a line that is not a
    number, an x out of range, the open cell again, then (0, 1) and (1, 1)
    opens the three safe cells and wins. *)
Example play_demo_won :
  ∃ game' k',
    play demo_game
         (mkConsole [Some 0; Some 0; None; Some 7; Some 0; Some 0;
                     Some 0; Some 1; Some 1; Some 1] [])
    = Ok (Won, game', k') ∧
    has_unopened_non_mines (grid game') = false ∧ stdin k' = [].
Proof. eexists _, _. split; [by vm_compute|]. by vm_compute. Qed.

(** Running out of input in the middle of a game raises [EOFError]. *)
Example play_demo_eof :
  play demo_game (mkConsole [Some 0; Some 0; Some 1] []) = Raise EOFError.
Proof. by vm_compute. Qed.

Lemma mine_count_exact_witness :
  0 < 3 ∧ 0 < 3 ∧
  ∃ (ms : list (Z * Z)) (g : Grid),
    Grid_init demo_rand 3 3 = Ok g ∧ NoDup ms ∧
    (∀ p, mine_at (cells g) p = true ↔ p ∈ ms) ∧
    Z.of_nat (count_mines (cells g)) = 2.
Proof.
  split; [lia|]. split; [lia|].
  destruct (mine_count_exact demo_rand 3 3)
    as (ms & g & _ & Hg & _ & Hnd & _ & Hm & _ & Hc); [lia|lia|].
  exists ms, g. split; [exact Hg|]. split; [exact Hnd|].
  split; [exact Hm|exact Hc].
Defined.

Lemma adjacent_count_exact_witness :
  0 < 3 ∧ 0 < 3 ∧
  ∃ g : Grid,
    Grid_init demo_rand 3 3 = Ok g ∧
    ∀ r c, 0 ≤ r < 3 → 0 ≤ c < 3 →
      ∃ cell, cell_ref (cells g) r c = Ok cell ∧
              (has_mine cell = false →
               adjacent_mines_count cell
               = neighbour_mines 3 3 (cells g) (r, c)).
Proof.
  split; [lia|]. split; [lia|].
  apply (adjacent_count_exact demo_rand 3 3); lia.
Defined.

Lemma mine_guess_loses_witness :
  let k := mkConsole [Some 1; Some 0] [] in
  ∃ k1 : console,
    has_unopened_non_mines (grid demo_game) = true ∧
    _get_user_guess demo_game (Grid_print (grid demo_game) k)
    = Ok (mkCoordinate 0 1, k1) ∧
    has_mine_at (grid demo_game) (mkCoordinate 0 1) = Ok true ∧
    play demo_game k
    = Ok (Lost, demo_game,
          emit (PrintLine "You lose") (emit (PrintLine "You guessed a mine") k1)) ∧
    is_cell_opened (grid demo_game) 0 1 = Ok false.
Proof.
  intros k. eexists.
  split; [reflexivity|]. split; [reflexivity|]. split; [reflexivity|].
  pose proof (mine_guess_loses demo_game k _ (mkCoordinate 0 1)
                eq_refl eq_refl eq_refl) as (_ & Hplay & Hopen & _).
  split; [exact Hplay|exact Hopen].
Defined.

Lemma only_is_open_changes_witness :
  let game' := mkMinesweeper
    (mkGrid 2 2 [[mkCell false 1 true; mkCell true 0 false];
                 [mkCell false 1 false; mkCell false 1 false]] 1) in
  open_cell demo_game (mkCoordinate 0 0) = Ok game' ∧
  topology (grid game') = topology (grid demo_game).
Proof.
  intros game'. split; [reflexivity|].
  apply (proj2 only_is_open_changes demo_game (mkCoordinate 0 0) game').
  reflexivity.
Defined.

Lemma open_is_idempotent_witness :
  let game := mkMinesweeper
    (mkGrid 2 2 [[mkCell false 1 true; mkCell true 0 false];
                 [mkCell false 1 false; mkCell false 1 false]] 1) in
  is_cell_opened (grid game) 0 0 = Ok true ∧
  open_cell game (mkCoordinate 0 0) = Ok game.
Proof.
  intros game. split; [reflexivity|].
  apply (proj1 (open_is_idempotent game 0 0)). reflexivity.
Defined.

Lemma mine_cells_count_zero_witness :
  let k := mkConsole [Some 0; Some 0] [] in
  let mine := mkCell true 0 false in
  ∃ (game' : Minesweeper) (k' : console),
    Grid_init demo_rand 2 2 = Ok demo_grid ∧
    play_loop 1 (mkMinesweeper demo_grid) k = Ok (Playing, game', k') ∧
    [mkCell false 1 true; mine] ∈ cells (grid game') ∧
    mine ∈ [mkCell false 1 true; mine] ∧
    has_mine mine = true ∧
    adjacent_mines_count mine = 0 ∧ Cell_str (Cell_open mine) = "0".
Proof.
  intros k mine. eexists _, _.
  split; [by vm_compute|]. split; [reflexivity|].
  assert ([mkCell false 1 true; mine]
          ∈ [[mkCell false 1 true; mine];
             [mkCell false 1 false; mkCell false 1 false]]) as Hline by left.
  assert (mine ∈ [mkCell false 1 true; mine]) as Hcell by (right; left).
  split; [exact Hline|]. split; [exact Hcell|]. split; [reflexivity|].
  exact (mine_cells_count_zero demo_rand 2 2 demo_grid 1 k _ Playing _
           Grid_init_demo eq_refl _ mine Hline Hcell eq_refl).
Defined.

Lemma negative_indices_wrap_witness :
  let k := mkConsole [] [] in
  Grid_init demo_rand 2 2 = Ok demo_grid ∧
  play_loop 0 (mkMinesweeper demo_grid) k = Ok (Playing, demo_game, k) ∧
  - 2 ≤ -1 < 2 ∧ - 2 ≤ -2 < 2 ∧
  ∃ cell,
    at_pos (cells demo_grid) ((-1) `mod` 2, (-2) `mod` 2) = Some cell ∧
    is_cell_opened demo_grid (-1) (-2) = Ok (is_open cell) ∧
    has_mine_at demo_grid (mkCoordinate (-1) (-2)) = Ok (has_mine cell).
Proof.
  intros k. split; [exact Grid_init_demo|]. split; [reflexivity|].
  split; [lia|]. split; [lia|].
  refine (proj2 (proj2 (negative_indices_wrap demo_rand 2 2 demo_grid 0 k k
                          Playing demo_game (-1) (-2) Grid_init_demo eq_refl
                          _ _))); lia.
Defined.

(** ** More about the construction steps *)

(** Two matrices of one shape with the same cell at every position are
    equal. *)
Lemma shape_ext (w h : Z) (cs1 cs2 : list (list Cell)) :
  shape w h cs1 → shape w h cs2 →
  (∀ p, at_pos cs1 p = at_pos cs2 p) → cs1 = cs2.
Proof.
  intros [Hl1 Ha1] [Hl2 Ha2] Hat.
  apply (list_eq_same_length _ _ (Z.to_nat h)); [done..|].
  intros i l1 l2 Hi H1 H2.
  pose proof (Forall_lookup_1 _ _ _ _ Ha1 H1) as Hw1.
  pose proof (Forall_lookup_1 _ _ _ _ Ha2 H2) as Hw2. simpl in *.
  apply (list_eq_same_length _ _ (Z.to_nat w)); [done..|].
  intros j x y Hj Hx Hy.
  specialize (Hat (Z.of_nat i, Z.of_nat j)). unfold at_pos in Hat.
  simpl in Hat. rewrite bool_decide_eq_true_2 in Hat by lia.
  rewrite !Nat2Z.id, H1, H2 in Hat. simpl in Hat. congruence.
Qed.

Lemma bind_blocks_lookup {A B : Type} (F : A → list B) (n : nat)
    (rs : list A) :
  (∀ r, length (F r) = n) →
  ∀ (i j : nat) (r : A),
    rs !! i = Some r → (j < n)%nat →
    (rs ≫= F) !! (i * n + j)%nat = F r !! j.
Proof.
  intros Hn. induction rs as [|r0 rs IH]; intros i j r Hi Hj; [done|].
  rewrite bind_cons. destruct i as [|i]; simpl in Hi.
  - injection Hi as ->. simpl. rewrite lookup_app_l; [done|]. by rewrite Hn.
  - rewrite lookup_app_r by (rewrite Hn; lia). rewrite Hn.
    replace (S i * n + j - n)%nat with (i * n + j)%nat by lia. by apply IH.
Qed.

Lemma bind_pairs_fmap {A B : Type} (x : A) (l : list B) :
  (l ≫= λ y, [(x, y)]) = pair x <$> l.
Proof.
  induction l as [|y l IH]; [done|]. rewrite bind_cons, IH. done.
Qed.

(** X1: [_generate_grid_coordinate_positions] lists the positions row by
    row: position [(r, c)] of the grid stands at index [r*width + c]; the
    list has [width*height] entries and no position twice. *)
Theorem positions_row_major (w h r c : Z) :
  0 ≤ r < h → 0 ≤ c < w →
  _generate_grid_coordinate_positions w h !! Z.to_nat (r * w + c)
  = Some (r, c) ∧
  Z.of_nat (length (_generate_grid_coordinate_positions w h)) = w * h ∧
  NoDup (_generate_grid_coordinate_positions w h).
Proof.
  intros Hr Hc. split; [|split].
  - unfold _generate_grid_coordinate_positions, range. rewrite !Z.sub_0_r.
    replace (Z.to_nat (r * w + c))
      with (Z.to_nat r * Z.to_nat w + Z.to_nat c)%nat by nia.
    rewrite (bind_blocks_lookup _ (Z.to_nat w) _) with (r := r).
    + rewrite bind_pairs_fmap, list_lookup_fmap, lookup_seqZ_lt by lia.
      simpl. do 2 f_equal. lia.
    + intros r0. by rewrite bind_pairs_fmap, length_fmap, length_seqZ.
    + rewrite lookup_seqZ_lt by lia. f_equal. lia.
    + lia.
  - rewrite length_positions. nia.
  - apply NoDup_positions.
Qed.

(** X2: [_create_empty_cells] builds [height] rows of [width] closed cells
    without mine and with count 0; a non-positive height gives no row and a
    non-positive width gives empty rows, without any error. *)
Theorem create_empty_cells_blank (w h : Z) :
  _create_empty_cells w h
  = replicate (Z.to_nat h) (replicate (Z.to_nat w) (mkCell false 0 false)) ∧
  (h ≤ 0 → _create_empty_cells w h = []) ∧
  (w ≤ 0 → ∀ line, line ∈ _create_empty_cells w h → line = []).
Proof.
  assert (∀ {A B : Type} (x : B) (l : list A),
            (λ _, x) <$> l = replicate (length l) x) as Hconst.
  { intros A B x l. induction l as [|y l IH]; [done|]. simpl. by f_equal. }
  assert (_create_empty_cells w h
          = replicate (Z.to_nat h)
              (replicate (Z.to_nat w) (mkCell false 0 false))) as Heq.
  { unfold _create_empty_cells, range.
    rewrite !Hconst, !length_seqZ, !Z.sub_0_r. done. }
  split; [done|]. rewrite Heq. split.
  - intros Hh. by replace (Z.to_nat h) with 0%nat by lia.
  - intros Hw line Hline. apply elem_of_replicate in Hline as [-> _].
    by replace (Z.to_nat w) with 0%nat by lia.
Qed.

(** X3: for distinct mine positions inside the grid,
    [_identify_non_mine_positions] holds exactly the positions of the grid
    that are not mines; together with the mines they are the positions, each
    once, so their numbers add up to the number of positions. *)
Theorem non_mine_positions_partition (w h : Z) (ms : list (Z * Z)) :
  NoDup ms → (∀ p, p ∈ ms → in_bounds w h p) →
  let ps := _generate_grid_coordinate_positions w h in
  let safe := _identify_non_mine_positions ps ms in
  (∀ p, p ∈ safe ↔ in_bounds w h p ∧ p ∉ ms) ∧
  elements safe ++ ms ≡ₚ ps ∧
  (length (elements safe) + length ms = length ps)%nat.
Proof.
  intros Hnd Hin ps safe.
  assert (∀ p, p ∈ safe ↔ in_bounds w h p ∧ p ∉ ms) as Hsafe.
  { intros p. unfold safe, _identify_non_mine_positions.
    rewrite elem_of_difference, !elem_of_list_to_set.
    unfold ps. by rewrite elem_of_positions. }
  assert (elements safe ++ ms ≡ₚ ps) as Hperm.
  { apply NoDup_Permutation.
    - apply NoDup_app. split; [apply NoDup_elements|]. split; [|done].
      intros p Hp Hp'. apply elem_of_elements, Hsafe in Hp as [_ Hp]. done.
    - apply NoDup_positions.
    - intros p. rewrite elem_of_app, elem_of_elements, Hsafe.
      unfold ps. rewrite elem_of_positions. split.
      + intros [[? _]|Hp]; [done|by apply Hin].
      + intros Hp. destruct (decide (p ∈ ms)); [by right|by left]. }
  split; [done|]. split; [done|].
  by rewrite <- (Permutation_length Hperm), length_app.
Qed.

(** X4: every list of distinct positions of the grid is what
    [_generate_mine_positions] returns for some draws of the generator, when
    asked for as many mines as the list is long. *)
Theorem every_layout_is_drawn (w h : Z) (ms : list (Z * Z)) :
  NoDup ms → (∀ p, p ∈ ms → in_bounds w h p) →
  ∃ rand,
    _generate_mine_positions rand (_generate_grid_coordinate_positions w h)
      (Z.of_nat (length ms)) = Ok ms.
Proof.
  intros Hnd Hin. unfold _generate_mine_positions.
  apply sample_complete; [apply NoDup_positions|done|].
  intros p Hp. by apply elem_of_positions, Hin.
Qed.

(** X5: on a matrix of the grid's shape, [_place_mines] succeeds for
    positions inside the grid and its result depends only on the set of
    positions, not on their order or repetition: it sets [has_mine] on the
    listed cells, keeps the mines there were, and leaves every count and
    every [is_open] as it was. *)
Theorem place_mines_by_set (w h : Z) (cs : list (list Cell))
    (ms ms' : list (Z * Z)) :
  shape w h cs → (∀ p, p ∈ ms → in_bounds w h p) →
  (∀ p, p ∈ ms ↔ p ∈ ms') →
  ∃ cs',
    _place_mines cs ms = Ok cs' ∧ _place_mines cs ms' = Ok cs' ∧
    shape w h cs' ∧
    ∀ p cell, at_pos cs p = Some cell →
      at_pos cs' p
      = Some (mkCell (has_mine cell || bool_decide (p ∈ ms))
                     (adjacent_mines_count cell) (is_open cell)).
Proof.
  intros Hshape Hin Hsame.
  destruct (place_mines_spec w h ms cs Hshape Hin) as (cs1 & H1 & Hs1 & Hat1).
  destruct (place_mines_spec w h ms' cs Hshape) as (cs2 & H2 & Hs2 & Hat2).
  { intros p Hp. by apply Hin, Hsame. }
  assert (cs2 = cs1) as ->.
  { apply (shape_ext w h); [done..|]. intros p. rewrite Hat1, Hat2.
    destruct (at_pos cs p) as [cell|]; [|done]. simpl.
    destruct (decide (p ∈ ms)) as [Hp|Hp], (decide (p ∈ ms')) as [Hp'|Hp'];
      try done; exfalso; by apply Hsame in Hp || apply Hsame in Hp'. }
  exists cs1. repeat (split; [done|]). intros p cell Hcell.
  rewrite Hat1, Hcell. simpl. destruct cell as [m n o]. simpl.
  case_decide.
  - rewrite bool_decide_eq_true_2 by done. by rewrite orb_true_r.
  - rewrite bool_decide_eq_false_2 by done. by rewrite orb_false_r.
Qed.

(** X6: [_set_adjacent_mine_count] succeeds for positions inside the grid
    and its result depends only on the set of positions, not on the order in
    which the set is iterated.  A listed cell gets the number of mines among
    its neighbours, plus one if the cell itself is a mine (the loops visit
    the cell too); other counts, and every [has_mine] and [is_open], are
    kept. *)
Theorem set_adjacent_mine_count_by_set (w h : Z) (cs : list (list Cell))
    (ps ps' : list (Z * Z)) :
  shape w h cs → (∀ p, p ∈ ps → in_bounds w h p) →
  (∀ p, p ∈ ps ↔ p ∈ ps') →
  ∃ cs',
    _set_adjacent_mine_count w h cs ps = Ok cs' ∧
    _set_adjacent_mine_count w h cs ps' = Ok cs' ∧
    shape w h cs' ∧
    ∀ p cell, at_pos cs p = Some cell →
      at_pos cs' p
      = Some (mkCell (has_mine cell)
                     (if decide (p ∈ ps)
                      then Z.b2z (has_mine cell) + neighbour_mines w h cs p
                      else adjacent_mines_count cell)
                     (is_open cell)).
Proof.
  intros Hshape Hin Hsame.
  destruct (set_adjacent_mine_count_spec w h ps cs Hshape Hin)
    as (cs1 & H1 & Hs1 & Hat1).
  destruct (set_adjacent_mine_count_spec w h ps' cs Hshape)
    as (cs2 & H2 & Hs2 & Hat2).
  { intros p Hp. by apply Hin, Hsame. }
  assert (cs2 = cs1) as ->.
  { apply (shape_ext w h); [done..|]. intros p. rewrite Hat1, Hat2.
    destruct (at_pos cs p) as [cell|]; [|done]. simpl.
    destruct (decide (p ∈ ps)) as [Hp|Hp], (decide (p ∈ ps')) as [Hp'|Hp'];
      try done; exfalso; by apply Hsame in Hp || apply Hsame in Hp'. }
  exists cs1. repeat (split; [done|]). intros p cell Hcell.
  rewrite Hat1. unfold mine_at. rewrite Hcell. simpl.
  destruct cell as [m n o]. simpl. by case_decide.
Qed.

(** ** More about constructed grids *)

Lemma NoDup_neighbour_offsets : NoDup neighbour_offsets.
Proof. by apply (bool_decide_unpack (NoDup neighbour_offsets)). Qed.

(** At most eight neighbours, and no more than there are mines. *)
Lemma neighbour_mines_bounds (w h : Z) (cs : list (list Cell))
    (ms : list (Z * Z)) (p : Z * Z) :
  (∀ q, mine_at cs q = true → q ∈ ms) →
  0 ≤ neighbour_mines w h cs p ≤ 8 ∧
  neighbour_mines w h cs p ≤ Z.of_nat (length ms).
Proof.
  intros Hmine. unfold neighbour_mines.
  set (P := λ d : Z * Z, in_bounds w h (p.1 + d.1, p.2 + d.2)
                          ∧ mine_at cs (p.1 + d.1, p.2 + d.2) = true).
  pose proof (length_filter P neighbour_offsets) as Hle.
  change (length neighbour_offsets) with 8%nat in Hle.
  split; [lia|].
  set (f := λ d : Z * Z, (p.1 + d.1, p.2 + d.2)).
  assert (Inj eq eq f) as Hinj.
  { intros [a b] [a' b'] [= ? ?]. f_equal; lia. }
  assert (f <$> filter P neighbour_offsets ⊆+ ms) as Hsub.
  { apply NoDup_submseteq.
    - apply (NoDup_fmap_2 f), NoDup_filter, NoDup_neighbour_offsets.
    - intros q Hq. apply list_elem_of_fmap in Hq as (d & -> & Hd).
      apply list_elem_of_filter in Hd as [[_ Hd] _]. by apply Hmine. }
  apply submseteq_length in Hsub. rewrite length_fmap in Hsub. lia.
Qed.

(** What holds of the mine flag and count of every cell is kept with the
    topology. *)
Lemma topology_transfer (Q : bool → Z → Prop) (g g' : Grid) :
  topology g' = topology g →
  (∀ line cell, line ∈ cells g → cell ∈ line →
                Q (has_mine cell) (adjacent_mines_count cell)) →
  ∀ line cell, line ∈ cells g' → cell ∈ line →
               Q (has_mine cell) (adjacent_mines_count cell).
Proof.
  unfold topology. intros [= _ _ _ Hcells] HQ line cell Hline Hcell.
  set (view := λ cell : Cell, (has_mine cell, adjacent_mines_count cell)) in *.
  assert (fmap view line ∈ fmap (M := list) view <$> cells g) as Hl.
  { rewrite <- Hcells. by apply list_elem_of_fmap_2. }
  apply list_elem_of_fmap in Hl as (line0 & Hview & Hline0).
  assert (view cell ∈ view <$> line0) as Hc.
  { rewrite <- Hview. by apply list_elem_of_fmap_2. }
  apply list_elem_of_fmap in Hc as (cell0 & [= -> ->] & Hcell0).
  by apply (HQ line0).
Qed.

(** Every cell of a grid as [Grid.__init__] leaves it. *)
Lemma Grid_init_cells (rand : nat → nat) (w h : Z) (g : Grid) :
  Grid_init rand w h = Ok g →
  ∃ ms : list (Z * Z),
    NoDup ms ∧ Z.of_nat (length ms) = mine_count g ∧
    mine_count g = (w * h) `div` 4 ∧
    (∀ p, p ∈ ms → in_bounds w h p) ∧
    (∀ p, mine_at (cells g) p = true ↔ p ∈ ms) ∧
    shape w h (cells g) ∧
    ∀ line cell, line ∈ cells g → cell ∈ line →
      cell = mkCell true 0 false ∨
      ∃ p, in_bounds w h p ∧
           cell = mkCell false (neighbour_mines w h (cells g) p) false.
Proof.
  intros Hg.
  destruct (decide (0 ≤ (w * h) `div` 4
                    ≤ Z.of_nat (Z.to_nat h * Z.to_nat w))) as [Hk|Hk].
  - destruct (Grid_init_spec rand w h Hk)
      as (ms & cs & _ & Hnd & Hlen & Hin & Hinit & Hshape & Hat).
    rewrite Hinit in Hg. injection Hg as <-. simpl.
    exists ms. repeat (split; [done|]).
    split; [by apply (mine_at_sampled w h)|]. split; [done|].
    intros line cell Hline Hcell.
    destruct (elem_of_cells w h cs line cell Hshape Hline Hcell)
      as (p & Hp & Hpc).
    rewrite Hat in Hpc by done. injection Hpc as <-.
    case_decide; [by left|right; by exists p].
  - rewrite Grid_init_ValueError in Hg by done. done.
Qed.

Lemma reachable_counts_bounded (rand : nat → nat) (w h : Z) (g : Grid)
    (fuel : nat) (k k' : console) (st : status) (game' : Minesweeper) :
  Grid_init rand w h = Ok g →
  play_loop fuel (mkMinesweeper g) k = Ok (st, game', k') →
  0 ≤ mine_count g ∧
  ∀ line cell, line ∈ cells (grid game') → cell ∈ line →
    0 ≤ adjacent_mines_count cell ≤ 8 ∧
    adjacent_mines_count cell ≤ mine_count g.
Proof.
  intros Hg Hplay.
  destruct (Grid_init_cells rand w h g Hg)
    as (ms & _ & Hlen & _ & _ & Hmine & _ & Hcells).
  split; [lia|].
  apply play_loop_topology in Hplay. simpl in Hplay.
  apply (topology_transfer
           (λ _ n, 0 ≤ n ≤ 8 ∧ n ≤ mine_count g) g (grid game') Hplay).
  intros line cell Hline Hcell.
  destruct (Hcells line cell Hline Hcell) as [->|(p & _ & ->)]; simpl.
  - lia.
  - rewrite <- Hlen. apply neighbour_mines_bounds. intros q. apply Hmine.
Qed.

(** X7: in a grid built by [Grid(width, height)], at any point of play,
    every [adjacent_mines_count] lies between 0 and 8 and is at most
    [mine_count], which is not negative. *)
Theorem counts_bounded (rand : nat → nat) (w h : Z) (g : Grid)
    (fuel : nat) (k k' : console) (st : status) (game' : Minesweeper) :
  Grid_init rand w h = Ok g →
  play_loop fuel (mkMinesweeper g) k = Ok (st, game', k') →
  0 ≤ mine_count g ∧
  ∀ line cell, line ∈ cells (grid game') → cell ∈ line →
    0 ≤ adjacent_mines_count cell ≤ 8 ∧
    adjacent_mines_count cell ≤ mine_count g.
Proof. apply reachable_counts_bounded. Qed.

Lemma cells_have_unopened_non_mine_intro (cs : list (list Cell))
    (line : list Cell) (cell : Cell) :
  line ∈ cs → cell ∈ line → has_mine cell = false → is_open cell = false →
  cells_have_unopened_non_mine cs = true.
Proof.
  intros Hline Hcell Hm Ho.
  induction cs as [|line0 cs IH]; [by apply elem_of_nil in Hline|]. simpl.
  destruct (row_has_unopened_non_mine line0) eqn:Hrow; [done|].
  apply elem_of_cons in Hline as [->|Hline]; [|by apply IH].
  assert (row_has_unopened_non_mine line0 = true) as Hrow'
    by (apply row_has_unopened_non_mine_spec; by exists cell).
  congruence.
Qed.

Lemma cells_have_unopened_non_mine_elim (cs : list (list Cell)) :
  cells_have_unopened_non_mine cs = false →
  ∀ line cell, line ∈ cs → cell ∈ line → has_mine cell = false →
               is_open cell = true.
Proof.
  intros Hno line cell Hline Hcell Hm.
  destruct (is_open cell) eqn:Ho; [done|].
  by rewrite (cells_have_unopened_non_mine_intro cs line cell) in Hno.
Qed.

Lemma elem_of_concat {A : Type} (x : A) (ls : list (list A)) :
  x ∈ concat ls ↔ ∃ l, x ∈ l ∧ l ∈ ls.
Proof.
  induction ls as [|l0 ls IH]; simpl.
  - split; [by intros ?%elem_of_nil|by intros (l & _ & ?%elem_of_nil)].
  - rewrite elem_of_app, IH. split.
    + intros [Hx|(l & Hx & Hl)]; [exists l0; split; [done|by left]|].
      exists l. split; [done|by right].
    + intros (l & Hx & Hl). apply elem_of_cons in Hl as [->|Hl]; [by left|].
      right. by exists l.
Qed.

Lemma count_open_all_closed (cs : list (list Cell)) :
  all_closed cs → count_open cs = 0%nat.
Proof.
  intros Hall. unfold count_open.
  assert (∀ cell, cell ∈ concat cs → is_open cell = false) as Hcl.
  { intros cell Hcell. apply elem_of_concat in Hcell as (line & ? & ?).
    by apply (Hall line). }
  induction (concat cs) as [|cell l IH]; [done|].
  rewrite filter_cons, decide_False.
  - apply IH. intros c Hc. apply Hcl. by right.
  - rewrite Hcl by left. done.
Qed.

(** X8: a grid as [Grid(width, height)] builds it has every cell closed,
    and its cells that are not mines number the cells minus
    [floor(width*height/4)].  With positive dimensions fewer cells are mines
    than there are cells, so [has_unopened_non_mines] is true: a game never
    starts won. *)
Theorem fresh_grid (rand : nat → nat) (w h : Z) (g : Grid) :
  Grid_init rand w h = Ok g →
  all_closed (cells g) ∧ count_open (cells g) = 0%nat ∧
  Z.of_nat (length (concat (cells g))) - Z.of_nat (count_mines (cells g))
  = Z.of_nat (Z.to_nat h * Z.to_nat w) - (w * h) `div` 4 ∧
  (0 < w → 0 < h →
   (w * h) `div` 4 < w * h ∧ has_unopened_non_mines g = true).
Proof.
  intros Hg.
  destruct (Grid_init_cells rand w h g Hg)
    as (ms & Hnd & Hlen & Hk & Hin & Hmine & Hshape & Hcells).
  assert (all_closed (cells g)) as Hclosed.
  { intros line cell Hline Hcell.
    by destruct (Hcells line cell Hline Hcell) as [->|(p & _ & ->)]. }
  split; [done|]. split; [by apply count_open_all_closed|]. split.
  { rewrite (length_concat_shape w h) by done.
    rewrite (count_mines_sampled w h ms) by done. lia. }
  intros Hw Hh.
  assert ((w * h) `div` 4 < w * h) as Hlt.
  { apply Z.div_lt_upper_bound; nia. }
  split; [done|].
  set (ps := _generate_grid_coordinate_positions w h).
  destruct (decide (Forall (λ p, p ∈ ms) ps)) as [Hall|Hex].
  - exfalso.
    assert (ps ⊆+ ms) as Hsub.
    { apply NoDup_submseteq; [apply NoDup_positions|].
      by apply Forall_forall. }
    apply submseteq_length in Hsub. unfold ps in Hsub.
    rewrite length_positions in Hsub. nia.
  - apply not_Forall_Exists in Hex; [|apply _].
    apply Exists_exists in Hex as (p & Hp & Hpm). simpl in Hpm.
    apply elem_of_positions in Hp.
    destruct (proj2 (at_pos_in_bounds w h (cells g) p Hshape) Hp)
      as [cell Hcell].
    assert (has_mine cell = false) as Hm.
    { destruct (has_mine cell) eqn:E; [|done]. exfalso. apply Hpm.
      apply Hmine. unfold mine_at. by rewrite Hcell. }
    unfold at_pos in Hcell. case_bool_decide; [|done].
    destruct (cells g !! _) as [line|] eqn:Hline; [|done]. simpl in Hcell.
    apply (cells_have_unopened_non_mine_intro _ line cell);
      [by eapply list_elem_of_lookup_2..|done|].
    apply (Hclosed line); by eapply list_elem_of_lookup_2.
Qed.

(** ** More about the queries and [open] *)

Lemma getitem_in_range {A : Type} (l : list A) (i : Z) :
  (∃ x, getitem l i = Ok x) ↔ - Z.of_nat (length l) ≤ i < Z.of_nat (length l).
Proof.
  split.
  - intros [x Hx].
    destruct (decide (- Z.of_nat (length l) ≤ i < Z.of_nat (length l)));
      [done|].
    rewrite getitem_out_of_range in Hx by lia. done.
  - intros Hi. destruct (getitem_wrapped l i Hi) as (x & _ & Hx). by exists x.
Qed.

Lemma cell_ref_in_range (w h : Z) (cs : list (list Cell)) (r c : Z) :
  shape w h cs →
  (∃ cell, cell_ref cs r c = Ok cell) ↔ - h ≤ r < h ∧ - w ≤ c < w.
Proof.
  intros [Hlen Hall]. unfold cell_ref. split.
  - intros [cell Hcell]. apply bind_Ok in Hcell as (line & Hline & Hcell).
    assert (∃ x, getitem cs r = Ok x) as Hr by eauto.
    assert (∃ x, getitem line c = Ok x) as Hc by eauto.
    apply getitem_in_range in Hr, Hc.
    apply getitem_Ok in Hline as (i & _ & Hline).
    pose proof (Forall_lookup_1 _ _ _ _ Hall Hline) as Hw. simpl in Hw. lia.
  - intros [Hr Hc].
    destruct (getitem_wrapped cs r) as (line & Hline & ->); [lia|]. simpl.
    pose proof (Forall_lookup_1 _ _ _ _ Hall Hline) as Hw. simpl in Hw.
    apply getitem_in_range. lia.
Qed.

Lemma cell_ref_out_of_range (w h : Z) (cs : list (list Cell)) (r c : Z) :
  shape w h cs →
  cell_ref cs r c = Raise IndexError ↔ ¬ (- h ≤ r < h ∧ - w ≤ c < w).
Proof.
  intros Hshape. rewrite <- (cell_ref_in_range w h cs r c Hshape). split.
  - intros H [cell Hcell]. congruence.
  - intros H. destruct (cell_ref cs r c) as [cell|e] eqn:E.
    + destruct H. by exists cell.
    + by apply cell_ref_Raise in E as ->.
Qed.

Lemma open_cell_Raise (game : Minesweeper) (coordinate : Coordinate) (e : exn) :
  open_cell game coordinate = Raise e ↔
  cell_ref (cells (grid game)) (row coordinate) (column coordinate) = Raise e.
Proof.
  unfold open_cell, alter_cell, alter_item, cell_ref.
  destruct (getitem (cells (grid game)) (row coordinate)) as [line|e1];
    simpl; [|split; congruence].
  destruct (getitem line (column coordinate)) as [cell|e2]; simpl;
    split; congruence.
Qed.

Lemma reachable_shape (rand : nat → nat) (w h : Z) (g : Grid)
    (fuel : nat) (k k' : console) (st : status) (game' : Minesweeper) :
  Grid_init rand w h = Ok g →
  play_loop fuel (mkMinesweeper g) k = Ok (st, game', k') →
  width (grid game') = w ∧ height (grid game') = h ∧
  shape w h (cells (grid game')).
Proof.
  intros Hinit Hplay.
  apply Grid_init_invariants in Hinit as (Hw & Hh & Hshape & _).
  apply play_loop_shape in Hplay as (Hw' & Hh' & Hs). simpl in *.
  split; [congruence|]. split; [congruence|]. by apply Hs.
Qed.

(** X9: on a grid built by [Grid(width, height)], at any point of play,
    [is_cell_opened], [has_mine_at] and [open] raise [IndexError] exactly when
    the row index is outside [[-height, height)] or the column index is
    outside [[-width, width)]. *)
Theorem index_errors (rand : nat → nat) (w h : Z) (g : Grid)
    (fuel : nat) (k k' : console) (st : status) (game' : Minesweeper)
    (r c : Z) :
  Grid_init rand w h = Ok g →
  play_loop fuel (mkMinesweeper g) k = Ok (st, game', k') →
  let outside := ¬ (- h ≤ r < h ∧ - w ≤ c < w) in
  (is_cell_opened (grid game') r c = Raise IndexError ↔ outside) ∧
  (has_mine_at (grid game') (mkCoordinate r c) = Raise IndexError ↔ outside) ∧
  (open_cell game' (mkCoordinate r c) = Raise IndexError ↔ outside).
Proof.
  intros Hinit Hplay outside.
  destruct (reachable_shape _ _ _ _ _ _ _ _ _ Hinit Hplay)
    as (_ & _ & Hshape).
  pose proof (cell_ref_out_of_range w h _ r c Hshape) as Href.
  fold outside in Href. rewrite <- Href.
  split; [|split].
  - unfold is_cell_opened. destruct (cell_ref _ r c); simpl;
      split; congruence.
  - unfold has_mine_at. simpl. destruct (cell_ref _ r c); simpl;
      split; congruence.
  - apply open_cell_Raise.
Qed.

Lemma cell_ref_nonneg (cs : list (list Cell)) (r c : Z) :
  0 ≤ r → 0 ≤ c →
  cell_ref cs r c = match at_pos cs (r, c) with
                    | Some cell => Ok cell
                    | None => Raise IndexError
                    end.
Proof.
  intros Hr Hc. unfold cell_ref, getitem, at_pos. simpl.
  rewrite (bool_decide_eq_true_2 (0 ≤ r ∧ 0 ≤ c)) by lia.
  rewrite (wrap_index_nonneg _ r) by done.
  rewrite (bool_decide_eq_false_2 (r < 0)) by lia.
  destruct (cs !! Z.to_nat r) as [line|]; simpl; [|done].
  rewrite (wrap_index_nonneg _ c) by done.
  by rewrite (bool_decide_eq_false_2 (c < 0)) by lia.
Qed.

(** The cells after [open] at a position given without wrap-around. *)
Lemma at_pos_open_cell (game game' : Minesweeper) (r c : Z) :
  0 ≤ r → 0 ≤ c →
  open_cell game (mkCoordinate r c) = Ok game' →
  ∃ cell, at_pos (cells (grid game)) (r, c) = Some cell ∧
    ∀ p, at_pos (cells (grid game')) p
         = if decide (p = (r, c)) then Some (Cell_open cell)
           else at_pos (cells (grid game)) p.
Proof.
  intros Hr Hc Hopen. apply open_cell_Ok in Hopen
    as (i & j & line & cell & Hi & Hline & Hj & Hcell & ->).
  simpl in *. rewrite wrap_index_nonneg in Hi, Hj by done.
  exists cell. split.
  - unfold at_pos. simpl. rewrite bool_decide_eq_true_2 by lia.
    replace (Z.to_nat r) with i by lia. rewrite Hline. simpl.
    by replace (Z.to_nat c) with j by lia.
  - intros [r' c']. unfold at_pos. simpl. case_bool_decide as Hnn.
    + rewrite (lookup2_insert _ _ _ _ _ line)
        by (by eauto using lookup_lt_Some).
      destruct (decide ((r', c') = (r, c))) as [[= -> ->]|Hne].
      * rewrite decide_True; [done|]. lia.
      * rewrite decide_False; [done|]. intros [H1 H2]. apply Hne.
        f_equal; lia.
    + destruct (decide ((r', c') = (r, c))) as [[= -> ->]|Hne]; [lia|done].
Qed.

(** X10: after [open] at a row and column given as non-negative indices,
    [is_cell_opened] there answers true, [is_cell_opened] at every other such
    position answers as before, and [has_mine_at] answers as before
    everywhere. *)
Theorem open_then_query (game game' : Minesweeper) (r c : Z) :
  0 ≤ r → 0 ≤ c →
  open_cell game (mkCoordinate r c) = Ok game' →
  is_cell_opened (grid game') r c = Ok true ∧
  (∀ r' c', 0 ≤ r' → 0 ≤ c' → (r', c') ≠ (r, c) →
            is_cell_opened (grid game') r' c'
            = is_cell_opened (grid game) r' c') ∧
  (∀ r' c', 0 ≤ r' → 0 ≤ c' →
            has_mine_at (grid game') (mkCoordinate r' c')
            = has_mine_at (grid game) (mkCoordinate r' c')).
Proof.
  intros Hr Hc Hopen.
  destruct (at_pos_open_cell game game' r c Hr Hc Hopen) as (cell & Hcell & Hat).
  split; [by apply (open_cell_opened game)|]. split.
  - intros r' c' Hr' Hc' Hne. unfold is_cell_opened.
    rewrite !cell_ref_nonneg, Hat by done. by rewrite decide_False.
  - intros r' c' Hr' Hc'. unfold has_mine_at. simpl.
    rewrite !cell_ref_nonneg, Hat by done.
    destruct (decide ((r', c') = (r, c))) as [[= -> ->]|Hne]; [|done].
    by rewrite Hcell.
Qed.

(** ** More about printing *)

Lemma stdout_Grid_print (g : Grid) (k : console) :
  stdout (Grid_print g k)
  = stdout k ++ ((λ line, PrintRow (Cell_str <$> line)) <$> cells g).
Proof.
  unfold Grid_print. revert k.
  induction (cells g) as [|line cs IH]; intros k; simpl.
  - by rewrite app_nil_r.
  - rewrite IH. simpl. by rewrite <- app_assoc.
Qed.

Lemma Cell_str_token (cell : Cell) :
  0 ≤ adjacent_mines_count cell ≤ 8 →
  Cell_str cell ∈ display_tokens ∧
  (Cell_str cell = " " ↔ is_open cell = false).
Proof.
  intros Hn. unfold Cell_str, display_tokens.
  destruct (is_open cell); [|split; [by left|done]].
  assert (∃ n : nat, adjacent_mines_count cell = Z.of_nat n ∧ (n ≤ 8)%nat)
    as (n & -> & Hle) by (exists (Z.to_nat (adjacent_mines_count cell)); lia).
  do 9 (destruct n as [|n];
        [split; [by apply (bool_decide_unpack _)|done]|]).
  lia.
Qed.

(** X11: on a grid built by [Grid(width, height)], at any point of play,
    [print] reads no input and appends one row of tokens per row of the grid,
    [height] rows of [width] tokens; every token is a blank or a digit from 0
    to 8, and it is the blank exactly when the cell is closed, so a closed
    mine shows like any closed cell. *)
Theorem print_rows (rand : nat → nat) (w h : Z) (g : Grid)
    (fuel : nat) (k0 k1 : console) (st : status) (game' : Minesweeper)
    (k : console) :
  Grid_init rand w h = Ok g →
  play_loop fuel (mkMinesweeper g) k0 = Ok (st, game', k1) →
  stdin (Grid_print (grid game') k) = stdin k ∧
  stdout (Grid_print (grid game') k)
  = stdout k ++ ((λ line, PrintRow (Cell_str <$> line)) <$> cells (grid game')) ∧
  length (cells (grid game')) = Z.to_nat h ∧
  ∀ line cell, line ∈ cells (grid game') → cell ∈ line →
    length line = Z.to_nat w ∧
    Cell_str cell ∈ display_tokens ∧
    (Cell_str cell = " " ↔ is_open cell = false).
Proof.
  intros Hinit Hplay.
  destruct (reachable_shape _ _ _ _ _ _ _ _ _ Hinit Hplay)
    as (_ & _ & Hlen & Hall).
  destruct (reachable_counts_bounded _ _ _ _ _ _ _ _ _ Hinit Hplay)
    as [_ Hbound].
  split; [apply stdin_Grid_print|]. split; [apply stdout_Grid_print|].
  split; [done|]. intros line cell Hline Hcell. split.
  - apply list_elem_of_lookup in Hline as [i Hi].
    by apply (Forall_lookup_1 _ _ _ _ Hall Hi).
  - apply Cell_str_token. by apply (Hbound line cell).
Qed.

(** ** More about the console loops *)

Lemma get_valid_coordinate_loop_skips (prompt : string) (max_index : Z)
    (skipped : list (option Z)) :
  ∀ (out : list output) (z : Z) (rest : list (option Z)),
    Forall (λ e, ¬ accepted max_index e) skipped → 0 ≤ z ≤ max_index →
    _get_valid_coordinate_loop prompt max_index
      (skipped ++ Some z :: rest) out
    = Ok (z, mkConsole rest
               (out ++ (skipped ≫= λ e, [Prompt prompt; rejection max_index e])
                    ++ [Prompt prompt])).
Proof.
  induction skipped as [|e skipped IH]; intros out z rest Hsk Hz.
  - simpl. by rewrite bool_decide_eq_true_2 by done.
  - apply Forall_cons in Hsk as [He Hsk]. rewrite bind_cons.
    destruct e as [z'|]; simpl.
    + rewrite bool_decide_eq_false_2.
      * rewrite IH by done. by rewrite <- !app_assoc.
      * intros Hz'. apply He. by exists z'.
    + rewrite IH by done. by rewrite <- !app_assoc.
Qed.

Lemma get_valid_coordinate_loop_result (prompt : string) (max_index : Z)
    (inp : list (option Z)) :
  ∀ out : list output,
    match _get_valid_coordinate_loop prompt max_index inp out with
    | Ok (z, k') =>
        ∃ skipped,
          inp = skipped ++ Some z :: stdin k' ∧
          Forall (λ e, ¬ accepted max_index e) skipped ∧ 0 ≤ z ≤ max_index
    | Raise e => e = EOFError ∧ Forall (λ e, ¬ accepted max_index e) inp
    end.
Proof.
  induction inp as [|entry inp IH]; intros out; simpl; [done|].
  destruct entry as [z|].
  - case_bool_decide as Hz.
    + exists []. split; [done|]. split; [constructor|done].
    + specialize (IH (out ++ [Prompt prompt] ++
        [PrintLine ("Invalid input. Please enter a number between 0 and "
                    +:+ pretty max_index +:+ ".")])).
      rewrite app_assoc in IH.
      destruct (_get_valid_coordinate_loop _ _ _ _) as [[z' k']|e].
      * destruct IH as (skipped & -> & Hsk & Hz').
        exists (Some z :: skipped). split; [done|]. split; [|done].
        constructor; [|done]. intros (? & [= <-] & ?). done.
      * destruct IH as [-> Hall]. split; [done|].
        constructor; [|done]. intros (? & [= <-] & ?). done.
  - specialize (IH (out ++ [Prompt prompt] ++
      [PrintLine "Invalid input. Please enter a valid number."])).
    rewrite app_assoc in IH.
    destruct (_get_valid_coordinate_loop _ _ _ _) as [[z' k']|e].
    + destruct IH as (skipped & -> & Hsk & Hz').
      exists (None :: skipped). split; [done|]. split; [|done].
      constructor; [|done]. by intros (? & ? & _).
    + destruct IH as [-> Hall]. split; [done|].
      constructor; [|done]. by intros (? & ? & _).
Qed.

Lemma get_valid_coordinate_Raise (plane : string) (max_index : Z)
    (k : console) (e : exn) :
  _get_valid_coordinate plane max_index k = Raise e → e = EOFError.
Proof.
  unfold _get_valid_coordinate. intros H.
  pose proof (get_valid_coordinate_loop_result
                (coordinate_prompt plane max_index) max_index
                (stdin k) (stdout k)) as Hres.
  unfold coordinate_prompt in Hres. rewrite H in Hres. by destruct Hres.
Qed.

(** X12: [_get_valid_coordinate] returns the first line of the input that
    is a number in [[0, max_index]]; it consumes the lines before it, and
    writes a prompt for every line read and a rejection for every line
    skipped.  It raises exactly when no line of the input is accepted, and
    then it is [EOFError]. *)
Theorem get_valid_coordinate_first_accepted (plane : string) (max_index : Z)
    (k : console) :
  (∀ z k',
     _get_valid_coordinate plane max_index k = Ok (z, k') ↔
     ∃ skipped,
       stdin k = skipped ++ Some z :: stdin k' ∧
       Forall (λ e, ¬ accepted max_index e) skipped ∧ 0 ≤ z ≤ max_index ∧
       stdout k'
       = stdout k
         ++ (skipped ≫= λ e, [Prompt (coordinate_prompt plane max_index);
                               rejection max_index e])
         ++ [Prompt (coordinate_prompt plane max_index)]) ∧
  (∀ e,
     _get_valid_coordinate plane max_index k = Raise e ↔
     e = EOFError ∧ Forall (λ e, ¬ accepted max_index e) (stdin k)).
Proof.
  pose proof (get_valid_coordinate_loop_result
                (coordinate_prompt plane max_index) max_index
                (stdin k) (stdout k)) as Hres.
  change (_get_valid_coordinate_loop (coordinate_prompt plane max_index)
            max_index (stdin k) (stdout k))
    with (_get_valid_coordinate plane max_index k) in Hres.
  split.
  - intros z k'. split.
    + intros H. rewrite H in Hres. destruct Hres as (skipped & Hin & Hsk & Hz).
      exists skipped. repeat (split; [done|]).
      unfold _get_valid_coordinate in H.
      change ("Enter zero-index " +:+ plane +:+ "-coordinate between 0 and "
              +:+ pretty max_index +:+ ": ")
        with (coordinate_prompt plane max_index) in H.
      rewrite Hin, get_valid_coordinate_loop_skips in H by done.
      by injection H as <-.
    + intros (skipped & Hin & Hsk & Hz & Hout).
      unfold _get_valid_coordinate.
      change ("Enter zero-index " +:+ plane +:+ "-coordinate between 0 and "
              +:+ pretty max_index +:+ ": ")
        with (coordinate_prompt plane max_index).
      rewrite Hin, get_valid_coordinate_loop_skips by done.
      rewrite <- Hout. by destruct k'.
  - intros e. split.
    + intros H. by rewrite H in Hres.
    + intros [-> Hall].
      destruct (_get_valid_coordinate plane max_index k) as [[z k']|e];
        [|by destruct Hres as [-> _]].
      destruct Hres as (skipped & Hin & _ & Hz). exfalso.
      rewrite Hin in Hall. apply Forall_app in Hall as [_ Hall].
      apply Forall_cons in Hall as [Hacc _]. apply Hacc. by exists z.
Qed.

(** ** More about guesses and play *)

Lemma get_user_guess_loop_Raise (game : Minesweeper) (fuel : nat) :
  shape (width (grid game)) (height (grid game)) (cells (grid game)) →
  ∀ (k : console) (e : exn),
    _get_user_guess_loop fuel game k = Raise e → e = EOFError.
Proof.
  intros Hshape. induction fuel as [|fuel IH]; intros k e H; simpl in H.
  - congruence.
  - destruct (_get_valid_coordinate "x" _ _) as [[column_index k1]|e1] eqn:Hx;
      simpl in H; [|injection H as <-; by eapply get_valid_coordinate_Raise].
    destruct (_get_valid_coordinate "y" _ _) as [[row_index k2]|e2] eqn:Hy;
      simpl in H; [|injection H as <-; by eapply get_valid_coordinate_Raise].
    apply get_valid_coordinate_spec in Hx as [Hc _].
    apply get_valid_coordinate_spec in Hy as [Hr _].
    destruct (cell_ref_in_bounds _ _ _ row_index column_index Hshape)
      as (cell & _ & Href); [split; simpl; lia|].
    unfold is_cell_opened in H. rewrite Href in H. simpl in H.
    destruct (is_open cell); [by eapply IH|done].
Qed.

Lemma is_cell_opened_at_pos (cs : Grid) (r c : Z) (b : bool) :
  0 ≤ r → 0 ≤ c →
  is_cell_opened cs r c = Ok b ↔
  ∃ cell, at_pos (cells cs) (r, c) = Some cell ∧ is_open cell = b.
Proof.
  intros Hr Hc. unfold is_cell_opened. rewrite cell_ref_nonneg by done.
  destruct (at_pos (cells cs) (r, c)) as [cell|]; simpl.
  - split; [intros [= <-]; by exists cell|by intros (? & [= <-] & <-)].
  - split; [done|by intros (? & ? & _)].
Qed.


Lemma turn_Raise (game : Minesweeper) (k : console) (e : exn) :
  shape (width (grid game)) (height (grid game)) (cells (grid game)) →
  turn game k = Raise e → e = EOFError.
Proof.
  intros Hshape H. unfold turn in H.
  destruct (has_unopened_non_mines (grid game)); [|done].
  destruct (_get_user_guess game _) as [[guess k1]|e1] eqn:Hg; simpl in H;
    [|injection H as <-; by eapply get_user_guess_loop_Raise].
  apply get_user_guess_loop_spec in Hg as (_ & Hr & Hc & _).
  assert (in_bounds (width (grid game)) (height (grid game))
                    (row guess, column guess)) as Hin
    by (split; simpl; lia).
  destruct (cell_ref_in_bounds _ _ _ _ _ Hshape Hin) as (cell & _ & Href).
  unfold _has_guessed_mine, has_mine_at in H. rewrite Href in H. simpl in H.
  destruct (has_mine cell); simpl in H; [done|].
  unfold open_cell in H.
  destruct (alter_cell_in_bounds Cell_open _ _ _ _ _ Hshape Hin)
    as (cs' & Hcs' & _).
  rewrite Hcs' in H. done.
Qed.

Lemma turn_shape (game game' : Minesweeper) (k k' : console) (st : status) :
  turn game k = Ok (st, game', k') →
  shape (width (grid game)) (height (grid game)) (cells (grid game)) →
  shape (width (grid game')) (height (grid game')) (cells (grid game')).
Proof.
  intros H Hshape. apply turn_Ok in H
    as [(_ & _ & ->)|(guess & k1 & _ & _ & [(_ & _ & ->)|(_ & _ & H & _)])];
    [done..|].
  apply open_cell_shape in H as (-> & -> & Hs). by apply Hs.
Qed.

Lemma play_loop_Raise (fuel : nat) :
  ∀ (game : Minesweeper) (k : console) (e : exn),
    shape (width (grid game)) (height (grid game)) (cells (grid game)) →
    play_loop fuel game k = Raise e → e = EOFError.
Proof.
  induction fuel as [|fuel IH]; intros game k e Hshape H; simpl in H; [done|].
  destruct (turn game k) as [[[st1 game1] k1]|e1] eqn:Hturn; simpl in H.
  - destruct st1; [|done..]. eapply IH; [|done]. by eapply turn_shape.
  - injection H as <-. by eapply turn_Raise.
Qed.

(** X14: on a grid built by [Grid(width, height)], [play] raises nothing
    but [EOFError]: no guess it accepts is outside the matrix. *)
Theorem play_raises_only_EOFError (rand : nat → nat) (w h : Z) (g : Grid)
    (k : console) (e : exn) :
  Grid_init rand w h = Ok g →
  play (mkMinesweeper g) k = Raise e → e = EOFError.
Proof.
  intros Hinit. apply play_loop_Raise.
  apply Grid_init_invariants in Hinit as (Hw & Hh & Hshape & _).
  simpl. by rewrite Hw, Hh.
Qed.

(** How a turn ends, with what it writes. *)
Lemma turn_outcome (game game' : Minesweeper) (k k' : console) (st : status) :
  turn game k = Ok (st, game', k') →
  match st with
  | Won => has_unopened_non_mines (grid game) = false ∧ game' = game ∧
           k' = emit (PrintLine "Hooray!! You won") k
  | Lost => has_unopened_non_mines (grid game) = true ∧ game' = game ∧
            ∃ guess k1,
              has_mine_at (grid game) guess = Ok true ∧
              k' = emit (PrintLine "You lose")
                     (emit (PrintLine "You guessed a mine") k1)
  | Playing => has_unopened_non_mines (grid game) = true ∧
               ∃ guess,
                 0 ≤ row guess ∧ 0 ≤ column guess ∧
                 is_cell_opened (grid game) (row guess) (column guess)
                 = Ok false ∧
                 has_mine_at (grid game) guess = Ok false ∧
                 open_cell game guess = Ok game'
  end.
Proof.
  unfold turn. destruct (has_unopened_non_mines (grid game)) eqn:Hcond.
  - intros H. inv_bind H. destruct a as [guess k1].
    unfold _has_guessed_mine in H. inv_bind H. destruct a as [hit k2].
    inv_bind Ha0. destruct a as [|].
    + injection Ha0 as <- <-. injection H as <- <- <-.
      repeat (split; [done|]). by exists guess, k1.
    + injection Ha0 as <- <-. inv_bind H. injection H as <- <- <-.
      split; [done|]. exists guess.
      apply get_user_guess_loop_spec in Ha as (Hopen & Hr & Hc & _).
      repeat (split; [done || lia|]). done.
  - by intros [= <- <- <-].
Qed.

Lemma play_loop_outcome (fuel : nat) :
  ∀ (game game' : Minesweeper) (k k' : console) (st : status),
    play_loop fuel game k = Ok (st, game', k') →
    match st with
    | Won => has_unopened_non_mines (grid game') = false ∧
             last (stdout k') = Some (PrintLine "Hooray!! You won")
    | Lost => has_unopened_non_mines (grid game') = true ∧
              (∃ guess, has_mine_at (grid game') guess = Ok true) ∧
              ∃ out, stdout k' = out ++ [PrintLine "You guessed a mine";
                                         PrintLine "You lose"]
    | Playing => True
    end.
Proof.
  induction fuel as [|fuel IH]; intros game game' k k' st H; simpl in H.
  - by injection H as <- <- <-.
  - inv_bind H. destruct a as [[st1 game1] k1].
    destruct st1; [by eapply IH| |]; injection H as <- <- <-;
      apply turn_outcome in Ha.
    + destruct Ha as (Hcond & -> & ->). split; [done|]. simpl.
      by rewrite last_snoc.
    + destruct Ha as (Hcond & -> & guess & k2 & Hmine & ->).
      split; [done|]. split; [by exists guess|].
      exists (stdout k2). simpl. by rewrite <- app_assoc.
Qed.


(** ** What play does to the cells *)

(** A turn that goes on opens the guessed cell, which was closed and is not
    a mine, and keeps every other cell. *)
Lemma turn_cells (game game' : Minesweeper) (k k' : console) :
  turn game k = Ok (Playing, game', k') →
  ∃ (p : Z * Z) (cell : Cell),
    at_pos (cells (grid game)) p = Some cell ∧
    is_open cell = false ∧ has_mine cell = false ∧
    ∀ q, at_pos (cells (grid game')) q
         = if decide (q = p) then Some (Cell_open cell)
           else at_pos (cells (grid game)) q.
Proof.
  intros H. apply turn_outcome in H
    as (_ & [r c] & Hr & Hc & Hopen & Hmine & H). simpl in *.
  destruct (at_pos_open_cell game game' r c Hr Hc H) as (cell & Hcell & Hat).
  exists (r, c), cell. split; [done|].
  apply is_cell_opened_at_pos in Hopen as (cell1 & Hc1 & Ho); [|done..].
  unfold has_mine_at in Hmine. simpl in Hmine.
  rewrite cell_ref_nonneg, Hcell in Hmine by done.
  injection Hmine as Hmine. split; [congruence|done].
Qed.

Lemma play_loop_cells (fuel : nat) :
  ∀ (game game' : Minesweeper) (k k' : console) (st : status),
    play_loop fuel game k = Ok (st, game', k') →
    ∀ p cell, at_pos (cells (grid game)) p = Some cell →
      ∃ cell', at_pos (cells (grid game')) p = Some cell' ∧
               has_mine cell' = has_mine cell ∧
               adjacent_mines_count cell' = adjacent_mines_count cell ∧
               (is_open cell = true → is_open cell' = true) ∧
               (has_mine cell = true → is_open cell' = is_open cell).
Proof.
  induction fuel as [|fuel IH]; intros game game' k k' st H p cell Hcell;
    simpl in H.
  - injection H as <- <- <-. by exists cell.
  - inv_bind H. destruct a as [[st1 game1] k1].
    destruct st1.
    + apply turn_cells in Ha as (q & cell0 & Hq & Ho & Hm & Hat).
      assert (∃ cell1, at_pos (cells (grid game1)) p = Some cell1 ∧
                has_mine cell1 = has_mine cell ∧
                adjacent_mines_count cell1 = adjacent_mines_count cell ∧
                (is_open cell = true → is_open cell1 = true) ∧
                (has_mine cell = true → is_open cell1 = is_open cell))
        as (cell1 & Hc1 & Hm1 & Hn1 & Ho1 & Hmo1).
      { rewrite Hat. case_decide as Hpq.
        - subst q. exists (Cell_open cell0).
          assert (cell0 = cell) as -> by congruence.
          simpl. repeat (split; [done|]). congruence.
        - by exists cell. }
      destruct (IH _ _ _ _ _ H p cell1 Hc1)
        as (cell' & Hc' & Hm' & Hn' & Ho' & Hmo').
      exists cell'. split; [done|]. split; [congruence|].
      split; [congruence|]. split; [tauto|].
      intros Hmine. rewrite Hmo' by congruence. by apply Hmo1.
    + injection H as <- <- <-. apply turn_outcome in Ha as (_ & -> & _).
      by exists cell.
    + injection H as <- <- <-. apply turn_outcome in Ha as (_ & -> & _).
      by exists cell.
Qed.

(** X16: any number of turns of [play] keeps, at every position, the
    cell's [has_mine] and [adjacent_mines_count]; a cell that is open stays
    open, and a mine cell keeps its [is_open]. *)
Theorem play_keeps_cells (fuel : nat) (game game' : Minesweeper)
    (k k' : console) (st : status) (p : Z * Z) (cell : Cell) :
  play_loop fuel game k = Ok (st, game', k') →
  at_pos (cells (grid game)) p = Some cell →
  ∃ cell', at_pos (cells (grid game')) p = Some cell' ∧
           has_mine cell' = has_mine cell ∧
           adjacent_mines_count cell' = adjacent_mines_count cell ∧
           (is_open cell = true → is_open cell' = true) ∧
           (has_mine cell = true → is_open cell' = is_open cell).
Proof. intros H. by apply (play_loop_cells fuel game game' k k' st). Qed.

Lemma count_filter_insert {A : Type} (P : A → Prop) `{!∀ x, Decision (P x)}
    (l : list A) (j : nat) (x y : A) :
  l !! j = Some x → ¬ P x → P y →
  length (filter P (<[j := y]> l)) = S (length (filter P l)).
Proof.
  intros Hx Hnx Hy. apply lookup_lt_Some in Hx as Hj.
  rewrite insert_take_drop by done.
  rewrite <- (take_drop_middle l j x) at 3 by done.
  rewrite !filter_app, !filter_cons, !length_app.
  rewrite decide_True, decide_False by done. simpl. lia.
Qed.

Lemma count_open_insert (cs : list (list Cell)) (i j : nat)
    (line : list Cell) (cell : Cell) :
  cs !! i = Some line → line !! j = Some cell → is_open cell = false →
  count_open (<[i := <[j := Cell_open cell]> line]> cs) = S (count_open cs).
Proof.
  intros Hline Hcell Ho. unfold count_open.
  apply lookup_lt_Some in Hline as Hi.
  rewrite insert_take_drop by done.
  rewrite <- (take_drop_middle cs i line) at 3 by done.
  rewrite !concat_app. simpl. rewrite !filter_app, !length_app.
  rewrite (count_filter_insert _ line j cell); [lia|done| |done].
  by rewrite Ho.
Qed.

Lemma topology_count_mines (g g' : Grid) :
  topology g' = topology g →
  count_mines (cells g') = count_mines (cells g) ∧
  length (concat (cells g')) = length (concat (cells g)).
Proof.
  unfold topology. intros [= _ _ _ Hcells]. unfold count_mines.
  set (view := λ cell : Cell, (has_mine cell, adjacent_mines_count cell)) in *.
  assert (∀ cs : list (list Cell),
            view <$> concat cs = concat (fmap (M := list) view <$> cs))
    as Hcat.
  { induction cs as [|l cs IH]; [done|]. simpl. by rewrite fmap_app, IH. }
  assert (∀ l : list Cell,
            length (filter (λ cell, has_mine cell = true) l)
            = length (filter (λ v : bool * Z, v.1 = true) (view <$> l)))
    as Hcount.
  { intros l. by rewrite filter_fmap_length. }
  split.
  - by rewrite !Hcount, !Hcat, Hcells.
  - rewrite <- (length_fmap view (concat (cells g'))),
            <- (length_fmap view (concat (cells g))).
    by rewrite !Hcat, Hcells.
Qed.

Lemma turn_opens_one_step (game game' : Minesweeper) (k k' : console) :
  turn game k = Ok (Playing, game', k') →
  count_open (cells (grid game')) = S (count_open (cells (grid game))) ∧
  count_mines (cells (grid game')) = count_mines (cells (grid game)) ∧
  (length (stdin k') + 2 ≤ length (stdin k))%nat.
Proof.
  intros H. pose proof (turn_reads _ _ _ _ H) as Hreads.
  pose proof (turn_topology _ _ _ _ _ H) as Htop.
  apply topology_count_mines in Htop as [Hmines _].
  apply turn_outcome in H as (_ & guess & _ & _ & Hopen & _ & H).
  apply open_cell_Ok in H
    as (i & j & line & cell & Hi & Hline & Hj & Hcell & ->). simpl in *.
  assert (is_open cell = false) as Ho.
  { unfold is_cell_opened in Hopen. inv_bind Hopen. injection Hopen as Ho.
    apply cell_ref_Ok in Ha as (i' & j' & line' & Hi' & Hline' & Hj' & Hcell').
    assert (i' = i) as -> by lia. assert (line' = line) as -> by congruence.
    assert (j' = j) as -> by lia. congruence. }
  split; [by apply count_open_insert|done].
Qed.

(** X17: a turn of [play] that does not end the game reads at least two
    lines and opens exactly one cell, which was closed and is not a mine;
    every other cell stays as it was, so the number of open cells grows by
    one and the number of mines stays. *)
Theorem turn_opens_one (game game' : Minesweeper) (k k' : console) :
  turn game k = Ok (Playing, game', k') →
  count_open (cells (grid game')) = S (count_open (cells (grid game))) ∧
  count_mines (cells (grid game')) = count_mines (cells (grid game)) ∧
  (length (stdin k') + 2 ≤ length (stdin k))%nat ∧
  ∃ (p : Z * Z) (cell : Cell),
    at_pos (cells (grid game)) p = Some cell ∧
    is_open cell = false ∧ has_mine cell = false ∧
    ∀ q, at_pos (cells (grid game')) q
         = if decide (q = p) then Some (Cell_open cell)
           else at_pos (cells (grid game)) q.
Proof.
  intros H. destruct (turn_opens_one_step _ _ _ _ H) as (Ho & Hm & Hl).
  repeat (split; [done|]). by apply (turn_cells game game' k k').
Qed.

Lemma count_open_safe (l : list Cell) :
  (∀ cell, cell ∈ l → is_open cell = negb (has_mine cell)) →
  (length (filter (λ cell, is_open cell = true) l)
   + length (filter (λ cell, has_mine cell = true) l) = length l)%nat.
Proof.
  induction l as [|cell l IH]; intros Hall; [done|].
  rewrite !filter_cons. pose proof (Hall cell ltac:(left)) as Hc.
  assert (∀ c, c ∈ l → is_open c = negb (has_mine c)) as Hall'
    by (intros c Hc'; apply Hall; by right).
  specialize (IH Hall').
  destruct (has_mine cell); simpl in Hc; rewrite Hc; simpl;
    rewrite ?decide_True, ?decide_False by done; simpl; lia.
Qed.

(** X18: when a game on a grid built by [Grid(width, height)] is won,
    a cell is open exactly if it is not a mine, so the number of open cells
    is the number of cells minus [floor(width*height/4)]. *)
Theorem win_opens_all_safe (rand : nat → nat) (w h : Z) (g : Grid)
    (fuel : nat) (k k' : console) (game' : Minesweeper) :
  Grid_init rand w h = Ok g →
  play_loop fuel (mkMinesweeper g) k = Ok (Won, game', k') →
  (∀ line cell, line ∈ cells (grid game') → cell ∈ line →
                is_open cell = negb (has_mine cell)) ∧
  Z.of_nat (count_open (cells (grid game')))
  = Z.of_nat (Z.to_nat h * Z.to_nat w) - (w * h) `div` 4.
Proof.
  intros Hinit Hplay.
  pose proof (play_loop_outcome _ _ _ _ _ _ Hplay) as [Hwon _].
  pose proof (play_loop_topology _ _ _ _ _ _ Hplay) as Htop.
  apply topology_count_mines in Htop as [Hmines Hlen]. simpl in *.
  destruct (Grid_init_cells rand w h g Hinit)
    as (ms & Hnd & Hms & Hk & Hin & Hmine & Hshape & _).
  apply Grid_init_invariants in Hinit as (_ & _ & _ & _ & Hclosed).
  pose proof (play_loop_mines_closed _ _ _ _ _ _ Hplay Hclosed) as Hclosed'.
  assert (∀ line cell, line ∈ cells (grid game') → cell ∈ line →
                       is_open cell = negb (has_mine cell)) as Hall.
  { intros line cell Hline Hcell. destruct (has_mine cell) eqn:Hm; simpl.
    - by apply (Hclosed' line).
    - by apply (cells_have_unopened_non_mine_elim _ Hwon line). }
  split; [done|].
  pose proof (count_open_safe (concat (cells (grid game')))) as Hsum.
  fold (count_open (cells (grid game'))) in Hsum.
  fold (count_mines (cells (grid game'))) in Hsum.
  rewrite Hmines, Hlen in Hsum.
  rewrite (length_concat_shape w h) in Hsum by done.
  rewrite (count_mines_sampled w h ms) in Hsum by done.
  assert (count_open (cells (grid game')) + length ms
          = Z.to_nat h * Z.to_nat w)%nat as Heq.
  { apply Hsum. intros cell Hcell.
    apply elem_of_concat in Hcell as (line & ? & ?). by apply (Hall line). }
  lia.
Qed.

(** X19: on a grid built with [width <= 0] or [height <= 0], [play]
    reads nothing, writes the winning message and returns the game as
    won. *)
Theorem no_cells_wins_at_once (rand : nat → nat) (w h : Z) (g : Grid)
    (k : console) :
  w ≤ 0 ∨ h ≤ 0 →
  Grid_init rand w h = Ok g →
  play (mkMinesweeper g) k
  = Ok (Won, mkMinesweeper g, emit (PrintLine "Hooray!! You won") k).
Proof.
  intros Hwh Hinit.
  apply Grid_init_invariants in Hinit as (_ & _ & Hshape & _).
  apply (shape_no_cells w h) in Hshape; [|done].
  unfold play. simpl. unfold turn, has_unopened_non_mines. simpl.
  rewrite Hshape.
  assert (∀ n, cells_have_unopened_non_mine (replicate n []) = false) as ->.
  { induction n as [|n IH]; [done|]. simpl. done. }
  done.
Qed.

(** X20: on a grid built with [mine_count = 0] (fewer than four cells),
    no run of turns ends lost. *)
Theorem no_mines_no_loss (rand : nat → nat) (w h : Z) (g : Grid)
    (fuel : nat) (k k' : console) (st : status) (game' : Minesweeper) :
  Grid_init rand w h = Ok g → mine_count g = 0 →
  play_loop fuel (mkMinesweeper g) k = Ok (st, game', k') →
  st ≠ Lost.
Proof.
  intros Hinit Hzero Hplay ->.
  pose proof (play_loop_outcome _ _ _ _ _ _ Hplay) as (_ & [guess Hmine] & _).
  pose proof (play_loop_topology _ _ _ _ _ _ Hplay) as Htop. simpl in Htop.
  destruct (Grid_init_cells rand w h g Hinit)
    as (ms & _ & Hms & _ & _ & Hmine' & Hshape & _).
  assert (ms = []) as -> by (apply nil_length_inv; lia).
  assert (∀ line cell, line ∈ cells g → cell ∈ line → has_mine cell = false)
    as Hno.
  { intros line cell Hline Hcell. destruct (has_mine cell) eqn:Hm; [|done].
    destruct (elem_of_cells w h _ line _ Hshape Hline Hcell) as (p & _ & Hp).
    assert (mine_at (cells g) p = true) as Hmp
      by (unfold mine_at; by rewrite Hp).
    apply Hmine' in Hmp. by apply elem_of_nil in Hmp. }
  unfold has_mine_at in Hmine. inv_bind Hmine. injection Hmine as Hmine.
  apply cell_ref_Ok in Ha as (i & j & line & _ & Hline & _ & Hcell).
  apply list_elem_of_lookup_2 in Hline, Hcell.
  pose proof (topology_transfer (λ m _, m = false) g (grid game') Htop Hno
                line a Hline Hcell) as Hfalse.
  simpl in Hfalse. congruence.
Qed.

(** ** The console during play *)

Lemma get_valid_coordinate_console (plane : string) (max_index : Z)
    (k k' : console) (z : Z) :
  _get_valid_coordinate plane max_index k = Ok (z, k') →
  stdin k' `suffix_of` stdin k ∧ stdout k `prefix_of` stdout k'.
Proof.
  intros H.
  pose proof (get_valid_coordinate_loop_result
                (coordinate_prompt plane max_index) max_index
                (stdin k) (stdout k)) as Hres.
  unfold _get_valid_coordinate in H. unfold coordinate_prompt in Hres.
  rewrite H in Hres. destruct Hres as (skipped & Hin & Hsk & Hz).
  split.
  - rewrite Hin. exists (skipped ++ [Some z]). by rewrite <- app_assoc.
  - fold (coordinate_prompt plane max_index) in H.
    rewrite Hin, get_valid_coordinate_loop_skips in H by done.
    injection H as <-. simpl. by eexists.
Qed.

Lemma emit_console (o : output) (k : console) :
  stdin (emit o k) = stdin k ∧ stdout k `prefix_of` stdout (emit o k).
Proof. split; [done|]. simpl. by eexists. Qed.

Lemma get_user_guess_loop_console (game : Minesweeper) (fuel : nat) :
  ∀ (k k' : console) (guess : Coordinate),
    _get_user_guess_loop fuel game k = Ok (guess, k') →
    stdin k' `suffix_of` stdin k ∧ stdout k `prefix_of` stdout k'.
Proof.
  induction fuel as [|fuel IH]; intros k k' guess H; simpl in H; [done|].
  inv_bind H. destruct a as [column_index k1].
  inv_bind H. destruct a as [row_index k2].
  inv_bind H.
  apply get_valid_coordinate_console in Ha as [Hi1 Ho1].
  apply get_valid_coordinate_console in Ha0 as [Hi2 Ho2].
  simpl in Hi1.
  assert (stdin k2 `suffix_of` stdin k) as Hi by (by etrans).
  assert (stdout k `prefix_of` stdout k2) as Ho.
  { etrans; [|exact Ho2]. etrans; [|exact Ho1]. simpl. by eexists. }
  destruct a as [|].
  - apply IH in H as [Hi3 Ho3]. simpl in *. split; [by etrans|].
    etrans; [exact Ho|]. etrans; [|exact Ho3]. by eexists.
  - by injection H as <- <-.
Qed.

Lemma Grid_print_console (g : Grid) (k : console) :
  stdin (Grid_print g k) = stdin k ∧
  stdout k `prefix_of` stdout (Grid_print g k).
Proof.
  split; [apply stdin_Grid_print|]. rewrite stdout_Grid_print. by eexists.
Qed.

Lemma turn_console (game game' : Minesweeper) (k k' : console) (st : status) :
  turn game k = Ok (st, game', k') →
  stdin k' `suffix_of` stdin k ∧ stdout k `prefix_of` stdout k'.
Proof.
  unfold turn. destruct (has_unopened_non_mines (grid game)).
  - intros H. inv_bind H. destruct a as [guess k1].
    apply get_user_guess_loop_console in Ha as [Hi Ho].
    destruct (Grid_print_console (grid game) k) as [Hpi Hpo].
    rewrite Hpi in Hi.
    assert (stdout k `prefix_of` stdout k1) as Ho1 by (by etrans).
    unfold _has_guessed_mine in H. inv_bind H. destruct a as [hit k2].
    inv_bind Ha. destruct a as [|].
    + injection Ha as <- <-. injection H as <- <- <-. simpl.
      split; [done|]. etrans; [exact Ho1|].
      rewrite <- app_assoc. by eexists.
    + injection Ha as <- <-. inv_bind H. by injection H as <- <- <-.
  - intros [= <- <- <-]. split; [done|]. simpl. by eexists.
Qed.

Lemma play_loop_console (fuel : nat) :
  ∀ (game game' : Minesweeper) (k k' : console) (st : status),
    play_loop fuel game k = Ok (st, game', k') →
    stdin k' `suffix_of` stdin k ∧ stdout k `prefix_of` stdout k' ∧
    (length (stdin k') + 2 * count_open (cells (grid game'))
     ≤ length (stdin k) + 2 * count_open (cells (grid game)))%nat.
Proof.
  induction fuel as [|fuel IH]; intros game game' k k' st H; simpl in H.
  - by injection H as <- <- <-.
  - inv_bind H. destruct a as [[st1 game1] k1].
    pose proof (turn_console _ _ _ _ _ Ha) as [Hi Ho].
    destruct st1.
    + apply turn_opens_one_step in Ha as (Hopen & _ & Hlen).
      apply IH in H as (Hi' & Ho' & Hlen').
      split; [by etrans|]. split; [by etrans|]. lia.
    + injection H as <- <- <-. apply turn_outcome in Ha as (_ & -> & _).
      split; [done|]. split; [done|].
      apply suffix_length in Hi. lia.
    + injection H as <- <- <-. apply turn_outcome in Ha as (_ & -> & _).
      split; [done|]. split; [done|].
      apply suffix_length in Hi. lia.
Qed.

(** X21: any number of turns of [play] leaves of the input a suffix of
    what there was, and extends the output that there was; for every cell
    opened at least two lines were read. *)
Theorem play_console (fuel : nat) (game game' : Minesweeper)
    (k k' : console) (st : status) :
  play_loop fuel game k = Ok (st, game', k') →
  stdin k' `suffix_of` stdin k ∧ stdout k `prefix_of` stdout k' ∧
  (2 * count_open (cells (grid game'))
   ≤ length (stdin k) - length (stdin k')
     + 2 * count_open (cells (grid game)))%nat.
Proof.
  intros H. apply play_loop_console in H as (Hi & Ho & Hlen).
  split; [done|]. split; [done|]. apply suffix_length in Hi. lia.
Qed.

(** ** play.py *)

Lemma Minesweeper_init_Ok (rand : nat → nat) (w h : Z) (game : Minesweeper) :
  Minesweeper_init rand w h = Ok game → Grid_init rand w h = Ok (grid game).
Proof.
  unfold Minesweeper_init. intros H. inv_bind H. by injection H as <-.
Qed.

(** X22: [main] either returns with the game won or lost, on a grid of the
    dimensions given by the first two lines of the input, or raises
    [EOFError] or [ValueError]; it never raises [IndexError]. *)
Theorem main_outcome (rand : nat → nat) (k : console) :
  match main rand k with
  | Ok (st, game', k') =>
      (st = Won ∨ st = Lost) ∧
      ∃ w h rest, stdin k = Some w :: Some h :: rest ∧
                  width (grid game') = w ∧ height (grid game') = h
  | Raise e => e = EOFError ∨ e = ValueError
  end.
Proof.
  unfold main, input_line.
  destruct (stdin k) as [|l1 [|l2 rest]] eqn:Hin; simpl; [by left..|].
  destruct l1 as [w|]; simpl; [|by right].
  destruct l2 as [h|]; simpl; [|by right].
  destruct (Minesweeper_init rand w h) as [game|e] eqn:Hgame; simpl.
  - apply Minesweeper_init_Ok in Hgame. destruct game as [g]. simpl in *.
    destruct (play _ _) as [[[st game'] k']|e] eqn:Hplay.
    + split; [by eapply play_ends|]. exists w, h, rest. split; [done|].
      destruct (reachable_shape _ _ _ _ _ _ _ _ _ Hgame Hplay) as (? & ? & _).
      done.
    + left. eapply play_loop_Raise; [|exact Hplay]. simpl.
      apply Grid_init_invariants in Hgame as (Hw & Hh & Hshape & _).
      by rewrite Hw, Hh.
  - right. unfold Minesweeper_init in Hgame.
    destruct (Grid_init rand w h) as [g|e'] eqn:Hg; simpl in Hgame; [done|].
    injection Hgame as <-.
    destruct (decide (0 ≤ (w * h) `div` 4
                      ≤ Z.of_nat (Z.to_nat h * Z.to_nat w))) as [Hk|Hk].
    + destruct (Grid_init_spec rand w h Hk)
        as (ms & cs & _ & _ & _ & _ & Hinit & _). congruence.
    + rewrite Grid_init_ValueError in Hg by done. congruence.
Qed.

(** X23: [main] raises [EOFError] when the input has fewer than two lines,
    and [ValueError] when it has two and one of them is not a number (both
    lines are read before either is converted); with two positive numbers the
    grid is built and [main] is [play] on it with the rest of the input. *)
Theorem main_dimension_lines (rand : nat → nat) (k : console) :
  ((length (stdin k) < 2)%nat → main rand k = Raise EOFError) ∧
  (∀ l1 l2 rest, stdin k = l1 :: l2 :: rest → l1 = None ∨ l2 = None →
                 main rand k = Raise ValueError) ∧
  (∀ w h rest, stdin k = Some w :: Some h :: rest → 0 < w → 0 < h →
     ∃ g, Grid_init rand w h = Ok g ∧
          main rand k
          = play (mkMinesweeper g)
              (mkConsole rest
                 (stdout k
                  ++ [Prompt "Enter integer value of width of cells: ";
                      Prompt "Enter integer value of height of cells: "]))).
Proof.
  unfold main, input_line. split; [|split].
  - intros Hlen. destruct (stdin k) as [|l1 [|l2 rest]]; simpl in *;
      [done..|lia].
  - intros l1 l2 rest -> Hnone. simpl.
    destruct l1 as [w|]; simpl; [|done].
    destruct Hnone as [?| ->]; done.
  - intros w h rest -> Hw Hh. simpl.
    destruct (Grid_init_spec rand w h (quarter_bounds w h Hw Hh))
      as (ms & cs & _ & _ & _ & _ & Hinit & _).
    eexists. split; [exact Hinit|].
    unfold Minesweeper_init. rewrite Hinit. simpl.
    by rewrite <- app_assoc.
Qed.

(** ** The further properties at concrete inputs *)


Lemma positions_row_major_witness :
  0 ≤ 1 < 2 ∧ 0 ≤ 2 < 3 ∧
  _generate_grid_coordinate_positions 3 2 !! Z.to_nat (1 * 3 + 2)
  = Some (1, 2).
Proof.
  split; [lia|]. split; [lia|].
  apply (positions_row_major 3 2 1 2); lia.
Defined.

Lemma non_mine_positions_partition_witness :
  let ms : list (Z * Z) := [(0, 1)] in
  NoDup ms ∧ (∀ p, p ∈ ms → in_bounds 2 2 p) ∧
  (length (elements (_identify_non_mine_positions
                       (_generate_grid_coordinate_positions 2 2) ms))
   + length ms
   = length (_generate_grid_coordinate_positions 2 2))%nat.
Proof.
  intros ms.
  assert (NoDup ms) as Hnd by apply NoDup_singleton.
  assert (∀ p, p ∈ ms → in_bounds 2 2 p) as Hin.
  { intros p Hp. apply list_elem_of_singleton in Hp as ->.
    split; simpl; lia. }
  split; [exact Hnd|]. split; [exact Hin|].
  apply (non_mine_positions_partition 2 2 ms Hnd Hin).
Defined.

Lemma every_layout_is_drawn_witness :
  NoDup [(1, 1); (0, 0)] ∧ (∀ p, p ∈ [(1, 1); (0, 0)] → in_bounds 3 3 p) ∧
  ∃ rand,
    _generate_mine_positions rand (_generate_grid_coordinate_positions 3 3) 2
    = Ok [(1, 1); (0, 0)].
Proof.
  assert (NoDup [(1, 1); (0, 0)]) as Hnd
    by (by apply (bool_decide_unpack _)).
  assert (∀ p, p ∈ [(1, 1); (0, 0)] → in_bounds 3 3 p) as Hin.
  { intros p Hp. apply elem_of_cons in Hp as [->|Hp];
      [split; simpl; lia|].
    apply list_elem_of_singleton in Hp as ->. split; simpl; lia. }
  split; [exact Hnd|]. split; [exact Hin|].
  exact (every_layout_is_drawn 3 3 [(1, 1); (0, 0)] Hnd Hin).
Defined.

Lemma place_mines_by_set_witness :
  shape 2 2 (_create_empty_cells 2 2) ∧
  (∀ p, p ∈ [(0, 1); (0, 1)] → in_bounds 2 2 p) ∧
  (∀ p, p ∈ [(0, 1); (0, 1)] ↔ p ∈ [(0, 1)]) ∧
  ∃ cs',
    _place_mines (_create_empty_cells 2 2) [(0, 1); (0, 1)] = Ok cs' ∧
    _place_mines (_create_empty_cells 2 2) [(0, 1)] = Ok cs'.
Proof.
  assert (∀ p, p ∈ [(0, 1); (0, 1)] ↔ p ∈ [(0, 1)]) as Hsame.
  { intros p. rewrite !elem_of_cons. tauto. }
  assert (∀ p, p ∈ [(0, 1); (0, 1)] → in_bounds 2 2 p) as Hin.
  { intros p Hp. apply Hsame, list_elem_of_singleton in Hp as ->.
    split; simpl; lia. }
  split; [apply shape_create_empty_cells|]. split; [exact Hin|].
  split; [exact Hsame|].
  destruct (place_mines_by_set 2 2 (_create_empty_cells 2 2)
              [(0, 1); (0, 1)] [(0, 1)]
              (shape_create_empty_cells 2 2) Hin Hsame)
    as (cs' & H1 & H2 & _).
  exists cs'. split; [exact H1|exact H2].
Defined.

Lemma set_adjacent_mine_count_by_set_witness :
  let cs := [[mkCell false 0 false; mkCell true 0 false];
             [mkCell false 0 false; mkCell false 0 false]] in
  shape 2 2 cs ∧
  (∀ p, p ∈ [(0, 0); (1, 1)] → in_bounds 2 2 p) ∧
  (∀ p, p ∈ [(0, 0); (1, 1)] ↔ p ∈ [(1, 1); (0, 0)]) ∧
  ∃ cs',
    _set_adjacent_mine_count 2 2 cs [(0, 0); (1, 1)] = Ok cs' ∧
    _set_adjacent_mine_count 2 2 cs [(1, 1); (0, 0)] = Ok cs'.
Proof.
  intros cs.
  assert (shape 2 2 cs) as Hshape by (split; [done|by repeat constructor]).
  assert (∀ p, p ∈ [(0, 0); (1, 1)] ↔ p ∈ [(1, 1); (0, 0)]) as Hsame.
  { intros p. rewrite !elem_of_cons. tauto. }
  assert (∀ p, p ∈ [(0, 0); (1, 1)] → in_bounds 2 2 p) as Hin.
  { intros p Hp. apply elem_of_cons in Hp as [->|Hp];
      [split; simpl; lia|].
    apply list_elem_of_singleton in Hp as ->. split; simpl; lia. }
  split; [exact Hshape|]. split; [exact Hin|]. split; [exact Hsame|].
  destruct (set_adjacent_mine_count_by_set 2 2 cs
              [(0, 0); (1, 1)] [(1, 1); (0, 0)] Hshape Hin Hsame)
    as (cs' & H1 & H2 & _).
  exists cs'. split; [exact H1|exact H2].
Defined.

Lemma counts_bounded_witness :
  let k := mkConsole [] [] in
  Grid_init demo_rand 2 2 = Ok demo_grid ∧
  play_loop 0 (mkMinesweeper demo_grid) k = Ok (Playing, demo_game, k) ∧
  0 ≤ mine_count demo_grid ∧
  ∀ line cell, line ∈ cells (grid demo_game) → cell ∈ line →
    0 ≤ adjacent_mines_count cell ≤ 8 ∧
    adjacent_mines_count cell ≤ mine_count demo_grid.
Proof.
  intros k. split; [exact Grid_init_demo|]. split; [reflexivity|].
  exact (counts_bounded demo_rand 2 2 demo_grid 0 k k Playing demo_game
           Grid_init_demo eq_refl).
Defined.

Lemma fresh_grid_witness :
  Grid_init demo_rand 2 2 = Ok demo_grid ∧
  all_closed (cells demo_grid) ∧ count_open (cells demo_grid) = 0%nat ∧
  has_unopened_non_mines demo_grid = true.
Proof.
  split; [exact Grid_init_demo|].
  destruct (fresh_grid demo_rand 2 2 demo_grid Grid_init_demo)
    as (Hclosed & Hopen & _ & Hplay).
  split; [exact Hclosed|]. split; [exact Hopen|].
  apply Hplay; lia.
Defined.

Lemma index_errors_witness :
  let k := mkConsole [] [] in
  Grid_init demo_rand 2 2 = Ok demo_grid ∧
  play_loop 0 (mkMinesweeper demo_grid) k = Ok (Playing, demo_game, k) ∧
  is_cell_opened (grid demo_game) 0 (-3) = Raise IndexError ∧
  open_cell demo_game (mkCoordinate 0 (-3)) = Raise IndexError.
Proof.
  intros k. split; [exact Grid_init_demo|]. split; [reflexivity|].
  destruct (index_errors demo_rand 2 2 demo_grid 0 k k Playing demo_game
              0 (-3) Grid_init_demo eq_refl) as (H1 & _ & H3).
  split; [apply H1; lia|apply H3; lia].
Defined.

Lemma open_then_query_witness :
  ∃ game',
    0 ≤ 1 ∧ 0 ≤ 0 ∧
    open_cell demo_game (mkCoordinate 1 0) = Ok game' ∧
    is_cell_opened (grid game') 1 0 = Ok true ∧
    is_cell_opened (grid game') 0 0 = is_cell_opened (grid demo_game) 0 0.
Proof.
  eexists. split; [lia|]. split; [lia|]. split; [reflexivity|].
  destruct (open_then_query demo_game _ 1 0 ltac:(lia) ltac:(lia) eq_refl)
    as (H1 & H2 & _).
  split; [exact H1|]. apply H2; [lia|lia|congruence].
Defined.

Lemma print_rows_witness :
  let k := mkConsole [] [] in
  Grid_init demo_rand 2 2 = Ok demo_grid ∧
  play_loop 0 (mkMinesweeper demo_grid) k = Ok (Playing, demo_game, k) ∧
  stdout (Grid_print (grid demo_game) k)
  = stdout k
    ++ ((λ line, PrintRow (Cell_str <$> line)) <$> cells (grid demo_game)) ∧
  length (cells (grid demo_game)) = Z.to_nat 2.
Proof.
  intros k. split; [exact Grid_init_demo|]. split; [reflexivity|].
  destruct (print_rows demo_rand 2 2 demo_grid 0 k k Playing demo_game k
              Grid_init_demo eq_refl) as (_ & H2 & H3 & _).
  split; [exact H2|exact H3].
Defined.


Lemma play_raises_only_EOFError_witness :
  Grid_init demo_rand 2 2 = Ok demo_grid ∧
  play (mkMinesweeper demo_grid) (mkConsole [Some 0] []) = Raise EOFError ∧
  EOFError = EOFError.
Proof.
  split; [exact Grid_init_demo|]. split; [reflexivity|].
  exact (play_raises_only_EOFError demo_rand 2 2 demo_grid
           (mkConsole [Some 0] []) EOFError Grid_init_demo eq_refl).
Defined.


Lemma play_keeps_cells_witness :
  ∃ game' k',
    play_loop 1 demo_game (mkConsole [Some 0; Some 0] [])
    = Ok (Playing, game', k') ∧
    at_pos (cells (grid demo_game)) (0, 1) = Some (mkCell true 0 false) ∧
    ∃ cell', at_pos (cells (grid game')) (0, 1) = Some cell' ∧
             has_mine cell' = true ∧ adjacent_mines_count cell' = 0.
Proof.
  eexists _, _. split; [reflexivity|]. split; [reflexivity|].
  destruct (play_keeps_cells 1 demo_game _ (mkConsole [Some 0; Some 0] []) _
              Playing (0, 1) (mkCell true 0 false) eq_refl eq_refl)
    as (cell' & H1 & H2 & H3 & _).
  exists cell'. split; [exact H1|]. split; [exact H2|exact H3].
Defined.

Lemma turn_opens_one_witness :
  ∃ game' k',
    turn demo_game (mkConsole [Some 0; Some 0] []) = Ok (Playing, game', k') ∧
    count_open (cells (grid game')) = S (count_open (cells (grid demo_game))).
Proof.
  eexists _, _. split; [reflexivity|].
  apply (turn_opens_one demo_game _ (mkConsole [Some 0; Some 0] []) _ eq_refl).
Defined.

Lemma win_opens_all_safe_witness :
  ∃ game' k',
    Grid_init demo_rand 2 2 = Ok demo_grid ∧
    play_loop 4 (mkMinesweeper demo_grid)
      (mkConsole [Some 0; Some 0; Some 0; Some 1; Some 1; Some 1] [])
    = Ok (Won, game', k') ∧
    Z.of_nat (count_open (cells (grid game')))
    = Z.of_nat (Z.to_nat 2 * Z.to_nat 2) - (2 * 2) `div` 4.
Proof.
  eexists _, _. split; [exact Grid_init_demo|]. split; [reflexivity|].
  apply (win_opens_all_safe demo_rand 2 2 demo_grid 4
           (mkConsole [Some 0; Some 0; Some 0; Some 1; Some 1; Some 1] [])
           _ _ Grid_init_demo eq_refl).
Defined.

Lemma no_cells_wins_at_once_witness :
  let g := mkGrid 0 1 [[]] 0 in
  let k := mkConsole [Some 0] [] in
  (0 ≤ 0 ∨ 1 ≤ 0) ∧ Grid_init demo_rand 0 1 = Ok g ∧
  play (mkMinesweeper g) k
  = Ok (Won, mkMinesweeper g, emit (PrintLine "Hooray!! You won") k).
Proof.
  intros g k. split; [lia|]. split; [reflexivity|].
  apply (no_cells_wins_at_once demo_rand 0 1 g k); [lia|reflexivity].
Defined.

Lemma no_mines_no_loss_witness :
  let g := mkGrid 1 1 [[mkCell false 0 false]] 0 in
  ∃ game' k',
    Grid_init demo_rand 1 1 = Ok g ∧ mine_count g = 0 ∧
    play_loop 2 (mkMinesweeper g) (mkConsole [Some 0; Some 0] [])
    = Ok (Won, game', k') ∧
    Won ≠ Lost.
Proof.
  intros g. eexists _, _. split; [reflexivity|]. split; [reflexivity|].
  split; [reflexivity|].
  exact (no_mines_no_loss demo_rand 1 1 g 2 (mkConsole [Some 0; Some 0] [])
           _ Won _ eq_refl eq_refl eq_refl).
Defined.

Lemma play_console_witness :
  ∃ game' k',
    play_loop 1 demo_game (mkConsole [Some 0; Some 0; Some 1] [])
    = Ok (Playing, game', k') ∧
    stdin k' `suffix_of` [Some 0; Some 0; Some 1] ∧
    [] `prefix_of` stdout k'.
Proof.
  eexists _, _. split; [reflexivity|].
  destruct (play_console 1 demo_game _
              (mkConsole [Some 0; Some 0; Some 1] []) _ Playing eq_refl)
    as (H1 & H2 & _).
  split; [exact H1|exact H2].
Defined.
